(** * Engine-augmented chat streaming relay of chess-coach-ai

    A shallow embedding of
    - [src/app/api/chat/route.ts]: the engine session
      ([getStockfishAnalysis]), prompt augmentation and the provider call
      ([streamAnthropicResponse]), the stream transcoder ([transformStream])
      and the request handler ([POST]);
    - the chat component ([AICoachChat], [handleSend]): the client stream
      consumer.

    JavaScript runs these handlers on one thread, one event at a time, so
    the interleavings of concurrent requests are the orders in which their
    events arrive: the engine session is a state machine over such events. *)

From Stdlib Require Import String Ascii NArith QArith DecimalString.
From stdpp Require Import base list strings.

Open Scope string_scope.

#[local] Set Warnings "-register-all".

(** ** Strings as the code uses them *)

(** The line feed of the template literals and of the wire protocol. *)
Definition nl : string := String "010"%char EmptyString.

(** [hay.includes(needle)]. *)
Fixpoint includes (needle hay : string) : bool :=
  String.prefix needle hay ||
  match hay with
  | EmptyString => false
  | String _ rest => includes needle rest
  end.

(** [hay.startsWith(p)]. *)
Definition startsWith (p hay : string) : bool := String.prefix p hay.

(** [s.slice(n)] for [0 <= n]. *)
Fixpoint slice (n : nat) (s : string) : string :=
  match n, s with
  | O, _ => s
  | S n', String _ rest => slice n' rest
  | S _, EmptyString => EmptyString
  end.

(** [s.split('\n')]: always at least one piece. *)
Fixpoint split_lines (s : string) : list string :=
  match s with
  | EmptyString => [EmptyString]
  | String c rest =>
      if Ascii.eqb c "010"%char then EmptyString :: split_lines rest
      else match split_lines rest with
           | l :: ls => String c l :: ls
           | [] => [String c EmptyString]
           end
  end.

(** White space removed by [trim], among the one-byte characters. *)
Definition is_space (c : ascii) : bool :=
  match N_of_ascii c with
  | 9 | 10 | 11 | 12 | 13 | 32 => true
  | _ => false
  end%N.

(** The same among the characters of two and three bytes, strings being
    read as UTF-8: U+00A0, U+1680, U+2000 to U+200A, U+2028, U+2029,
    U+202F, U+205F, U+3000 and U+FEFF. *)
Definition is_space2 (c1 c2 : ascii) : bool :=
  match N_of_ascii c1, N_of_ascii c2 with
  | 194, 160 => true
  | _, _ => false
  end%N.

Definition is_space3 (c1 c2 c3 : ascii) : bool :=
  match N_of_ascii c1, N_of_ascii c2 with
  | 225, 154 => N.eqb (N_of_ascii c3) 128
  | 226, 128 =>
      let n := N_of_ascii c3 in
      (N.leb 128 n && N.leb n 138) || N.eqb n 168 || N.eqb n 169 || N.eqb n 175
  | 226, 129 => N.eqb (N_of_ascii c3) 159
  | 227, 128 => N.eqb (N_of_ascii c3) 128
  | 239, 187 => N.eqb (N_of_ascii c3) 191
  | _, _ => false
  end%N.

(** [s.trim() === '']: [s] is white space only. *)
Fixpoint blank (s : string) : bool :=
  match s with
  | EmptyString => true
  | String c1 rest =>
      if is_space c1 then blank rest
      else
        match rest with
        | String c2 rest2 =>
            if is_space2 c1 c2 then blank rest2
            else
              match rest2 with
              | String c3 rest3 => is_space3 c1 c2 c3 && blank rest3
              | EmptyString => false
              end
        | EmptyString => false
        end
  end.

(** Whether a string holds a line feed. *)
Fixpoint has_lf (s : string) : bool :=
  match s with
  | EmptyString => false
  | String c rest => Ascii.eqb c "010"%char || has_lf rest
  end.

(** The strings of a list, one after the other. *)
Definition concat_all (parts : list string) : string :=
  fold_right String.append "" parts.

(** A number in string concatenation, for the non-negative integers. *)
Definition string_of_N (n : N) : string := NilZero.string_of_uint (N.to_uint n).

(** ** Messages (the [Message] interface of both files) *)

Inductive Role := user | assistant | system.

Definition Role_eqb (a b : Role) : bool :=
  match a, b with
  | user, user | assistant, assistant | system, system => true
  | _, _ => false
  end.

Record Message := mkMessage { role : Role; content : string }.

(** ** Engine session: [getStockfishAnalysis] over the module-level process *)

Module Engine.

(** What the one [stockfish] process can emit. *)
Inductive ProcEvent :=
| StdoutData (data : string)
| StderrData (data : string)
| ProcError (error : string).

(** The promise a call returns: settled once, later settlements are lost. *)
Inductive Promise :=
| Pending
| Resolved (value : string)
| Rejected (error : string).

Definition resolve (v : string) (p : Promise) : Promise :=
  match p with Pending => Resolved v | _ => p end.

Definition reject (e : string) (p : Promise) : Promise :=
  match p with Pending => Rejected e | _ => p end.

(** The closure of one call: its [analysis] variable and its promise.
    The three listeners it registered are never removed. *)
Record Call := mkCall { analysis : string; promise : Promise }.

(** The listeners of one call, run on one event of the process. *)
Definition on_event (ev : ProcEvent) (c : Call) : Call :=
  match ev with
  | StdoutData output =>
      let analysis' := analysis c ++ output in
      {| analysis := analysis';
         promise := if includes "bestmove" output
                    then resolve analysis' (promise c) else promise c |}
  | StderrData _ => c
  | ProcError error =>
      {| analysis := analysis c; promise := reject error (promise c) |}
  end.

(** The shared process: the calls whose listeners are registered, oldest
    first, and everything written to its standard input. *)
Record Session := mkSession { listeners : list Call; stdin : list string }.

Definition init : Session := {| listeners := []; stdin := [] |}.

Definition fresh : Call := {| analysis := ""; promise := Pending |}.

(** The executor of the promise: runs at once, in the call itself. *)
Definition getStockfishAnalysis (fen : string) (depth : N) (s : Session) : Session :=
  {| listeners := listeners s ++ [fresh];
     stdin := stdin s ++ ["position fen " ++ fen ++ nl;
                          "go depth " ++ string_of_N depth ++ nl] |}.

(** One event of the process reaches the listeners of every call. *)
Definition emit (ev : ProcEvent) (s : Session) : Session :=
  {| listeners := map (on_event ev) (listeners s); stdin := stdin s |}.

Inductive Action :=
| ACall (fen : string) (depth : N)
| AEmit (ev : ProcEvent).

Definition step (s : Session) (a : Action) : Session :=
  match a with
  | ACall fen depth => getStockfishAnalysis fen depth s
  | AEmit ev => emit ev s
  end.

Definition run (s : Session) (acts : list Action) : Session :=
  fold_left step acts s.

(** The events of the process among the actions. *)
Fixpoint events_of (acts : list Action) : list ProcEvent :=
  match acts with
  | [] => []
  | ACall _ _ :: r => events_of r
  | AEmit ev :: r => ev :: events_of r
  end.

(** One call followed through the events after it. *)
Definition follow (c : Call) (evs : list ProcEvent) : Call :=
  fold_left (fun c ev => on_event ev c) evs c.

(** What a caller that awaits the promise gets, read off the events:
    the text up to the first chunk with the sentinel, or the first error. *)
Fixpoint settle (acc : string) (evs : list ProcEvent) : Promise :=
  match evs with
  | [] => Pending
  | StdoutData d :: r =>
      if includes "bestmove" d then Resolved (acc ++ d) else settle (acc ++ d) r
  | StderrData _ :: r => settle acc r
  | ProcError e :: _ => Rejected e
  end.

(** The handle of the call made in state [s]. *)
Definition handle (s : Session) : nat := length (listeners s).

Definition in_flight (s : Session) (i : nat) : bool :=
  match listeners s !! i with
  | Some {| promise := Pending |} => true
  | _ => false
  end.

(** An event that leaves a pending call pending: output without the
    sentinel, or anything on the error stream. *)
Definition quiet (ev : ProcEvent) : bool :=
  match ev with
  | StdoutData d => negb (includes "bestmove" d)
  | StderrData _ => true
  | ProcError _ => false
  end.

(** The commands the calls among the actions write, in their order. *)
Fixpoint commands (acts : list Action) : list string :=
  match acts with
  | [] => []
  | ACall fen depth :: r =>
      ("position fen " ++ fen ++ nl)%string
        :: ("go depth " ++ string_of_N depth ++ nl)%string :: commands r
  | AEmit _ :: r => commands r
  end.

Definition is_call (a : Action) : bool :=
  match a with ACall _ _ => true | AEmit _ => false end.

(** Every action but the output of the error stream. *)
Definition not_stderr (a : Action) : bool :=
  match a with AEmit (StderrData _) => false | _ => true end.

End Engine.

(** ** JSON values, as [JSON.parse] returns them and as the code reads them *)

Module Json.

(** A number stands by a rational with the same sign: the code only asks
    whether it is zero. An object is its own properties in order, under
    distinct names, as [JSON.parse] leaves them. *)
Inductive json :=
| JNull
| JBool (b : bool)
| JNum (q : Q)
| JStr (s : string)
| JArr (items : list json)
| JObj (fields : list (string * json)).

(** A value read from a value: [None] is [undefined]. *)
Fixpoint assoc (k : string) (fields : list (string * json)) : option json :=
  match fields with
  | [] => None
  | (k', v) :: r => if String.eqb k k' then Some v else assoc k r
  end.

(** [v.k] where [v] is not [null], for the names this program reads
    ([type], [delta], [text], [error], [message], [choices], [content]):
    none of them is inherited by strings, numbers, booleans or arrays. *)
Definition prop (k : string) (v : json) : option json :=
  match v with
  | JObj fields => assoc k fields
  | _ => None
  end.

(** [o?.k]. *)
Definition opt_prop (k : string) (o : option json) : option json :=
  match o with
  | None | Some JNull => None
  | Some v => prop k v
  end.

(** [o?.[0]]. *)
Definition opt_index0 (o : option json) : option json :=
  match o with
  | None | Some JNull => None
  | Some (JArr items) => head items
  | Some (JStr (String c _)) => Some (JStr (String c EmptyString))
  | Some (JObj fields) => assoc "0" fields
  | Some _ => None
  end.

(** Truthiness, as [if], [&&] and [||] test it. *)
Definition truthy (o : option json) : bool :=
  match o with
  | None | Some JNull => false
  | Some (JBool b) => b
  | Some (JNum q) => negb (Z.eqb (Qnum q) 0)
  | Some (JStr s) => negb (String.eqb s "")
  | Some (JArr _) | Some (JObj _) => true
  end.

(** [o === s] for a string literal [s]. *)
Definition is_string (s : string) (o : option json) : bool :=
  match o with
  | Some (JStr s') => String.eqb s' s
  | _ => false
  end.

End Json.
Import Json.

(** ** Stream transcoder: [transformStream] *)

Module Transcoder.

(** A chunk of the provider's stream, by what [JSON.parse] makes of its
    decoded text: a value, or a [SyntaxError]. *)
Inductive Chunk :=
| Unparseable
| Parsed (data : json).

(** What the [try] block can throw. [StreamError] carries the value given
    to [new Error]. *)
Inductive JsError :=
| SyntaxError
| TypeError
| StreamError (message : json).

(** What is enqueued on the readable side. *)
Inductive Frame :=
| ContentFrame (content : json)
| TerminationFrame.

Definition sseData (content : json) : json :=
  JObj [("choices", JArr [JObj [("delta", JObj [("content", content)])]])].

(** The text of a frame on the wire, [JSON.stringify] given. *)
Definition encode (stringify : json -> string) (f : Frame) : string :=
  match f with
  | ContentFrame content => "data: " ++ stringify (sseData content) ++ nl ++ nl
  | TerminationFrame => "data: [DONE]" ++ nl ++ nl
  end.

Inductive Status :=
| Open
| Errored (e : JsError)
| Closed.

(** The transform stream: the frames enqueued so far and its state.
    [controller.error] makes it [Errored]: nothing is transformed or
    flushed after that, and the reader gets the error in place of whatever
    it has not read yet. *)
Record Stream := mkStream { enqueued : list Frame; status : Status }.

Definition start : Stream := {| enqueued := []; status := Open |}.

(** The body of the [try] block: a frame to enqueue, nothing, or a throw. *)
Definition process (chunk : Chunk) : JsError + option Frame :=
  match chunk with
  | Unparseable => inl SyntaxError
  | Parsed JNull => inl TypeError
  | Parsed data =>
      if is_string "content_block_delta" (prop "type" data)
         && truthy (opt_prop "text" (prop "delta" data))
      then match opt_prop "text" (prop "delta" data) with
           | Some text => inr (Some (ContentFrame text))
           | None => inr None
           end
      else if is_string "error" (prop "type" data)
      then let message := opt_prop "message" (prop "error" data) in
           inl (StreamError (match message with
                             | Some m => if truthy message then m else JStr "Stream error"
                             | None => JStr "Stream error"
                             end))
      else inr None
  end.

(** [transform(chunk, controller)]: the [catch] block errors the stream. *)
Definition transform (chunk : Chunk) (st : Stream) : Stream :=
  match process chunk with
  | inr (Some f) => {| enqueued := enqueued st ++ [f]; status := status st |}
  | inr None => st
  | inl e => {| enqueued := enqueued st; status := Errored e |}
  end.

(** [flush(controller)]: the termination frame, then [terminate]. *)
Definition flush (st : Stream) : Stream :=
  {| enqueued := enqueued st ++ [TerminationFrame]; status := Closed |}.

(** [source.pipeThrough(transformStream)] for a source that yields
    [chunks] and then closes: chunks are transformed while the stream is
    open, and [flush] runs only if it is still open at the end. *)
Fixpoint pipe (chunks : list Chunk) (st : Stream) : Stream :=
  match status st with
  | Open =>
      match chunks with
      | [] => flush st
      | c :: rest => pipe rest (transform c st)
      end
  | _ => st
  end.

Definition pipeThrough (chunks : list Chunk) : Stream := pipe chunks start.

(** Whether a chunk makes the [try] block throw, and the frames it gives. *)
Definition throws (c : Chunk) : bool :=
  match process c with inl _ => true | inr _ => false end.

Definition frames_of (c : Chunk) : list Frame :=
  match process c with inr (Some f) => [f] | _ => [] end.

(** The chunks before the first one that throws. *)
Fixpoint before_throw (chunks : list Chunk) : list Chunk :=
  match chunks with
  | [] => []
  | c :: rest => if throws c then [] else c :: before_throw rest
  end.

(** The first error thrown over a sequence of chunks, if any. *)
Fixpoint failure (chunks : list Chunk) : option JsError :=
  match chunks with
  | [] => None
  | c :: rest =>
      match process c with
      | inl e => Some e
      | inr _ => failure rest
      end
  end.

Definition is_termination (f : Frame) : bool :=
  match f with TerminationFrame => true | ContentFrame _ => false end.

(** The text of a chunk that is a text delta of the provider: an object of
    type [content_block_delta] whose [delta] has a string as [text]. *)
Definition delta_text (c : Chunk) : option string :=
  match c with
  | Parsed data =>
      if is_string "content_block_delta" (prop "type" data)
      then match opt_prop "text" (prop "delta" data) with
           | Some (JStr t) => Some t
           | _ => None
           end
      else None
  | Unparseable => None
  end.

(** How many termination frames a stream carries. *)
Definition terminations (st : Stream) : nat :=
  length (List.filter is_termination (enqueued st)).

End Transcoder.

(** ** The route: augmentation, provider call and [POST] *)

Module Route.

Record ChatRequest := mkChatRequest {
  messages : list Message;
  position : string;
  model : string
}.

(** [l.findLast(p)], with the index of the element found: the array is
    searched from its end. *)
Fixpoint findLast {A : Type} (p : A -> bool) (l : list A) : option (nat * A) :=
  match l with
  | [] => None
  | x :: rest =>
      match findLast p rest with
      | Some (i, y) => Some (S i, y)
      | None => if p x then Some (0, x) else None
      end
  end.

Definition is_user (m : Message) : bool := Role_eqb (role m) user.

(** The template literal of the augmentation. *)
Definition augmented (position stockfishAnalysis question : string) : string :=
  "Chess position (FEN): " ++ position ++ nl ++
  "Stockfish analysis:" ++ nl ++ stockfishAnalysis ++ nl ++ nl ++
  "User question: " ++ question.

(** The assignment to [lastUserMessage.content]: the object found is an
    element of the array, so the array holds the new content afterwards.
    The array comes from the parsed body of the request, whose elements are
    distinct objects: no other element changes with it. *)
Definition augment (position stockfishAnalysis : string)
    (messages : list Message) : list Message :=
  match findLast is_user messages with
  | Some (i, lastUserMessage) =>
      <[i := {| role := role lastUserMessage;
                content := augmented position stockfishAnalysis
                             (content lastUserMessage) |}]> messages
  | None => messages
  end.

(** [messages.filter(m => m.role !== 'system').map(...)]. *)
Definition anthropicMessages (messages : list Message) : list Message :=
  map (fun m => {| role := if Role_eqb (role m) assistant then assistant else user;
                   content := content m |})
      (List.filter (fun m => negb (Role_eqb (role m) system)) messages).

(** The argument of [anthropic.messages.create], with the key of the client. *)
Record ProviderCall := mkProviderCall {
  apiKey : string;
  call_model : string;
  max_tokens : N;
  call_messages : list Message;
  stream : bool
}.

Inductive ProviderResult :=
| CreateThrows (message : string)
| CreateStream (chunks : list Transcoder.Chunk).

(** What the handler runs against. [chess_load] tells whether
    [chess.load] accepts a position (it throws otherwise); [anthropic_key]
    is the string literal assigned for the first model, a credential not
    repeated here; [engine] is the session when the request arrives and
    [engine_events] what the process emits after the request's commands. *)
Record World := mkWorld {
  chess_load : string -> bool;
  anthropic_key : string;
  GEMINI_API_KEY : option string;
  engine : Engine.Session;
  engine_events : list Engine.ProcEvent;
  create : ProviderCall -> ProviderResult
}.

Inductive Completion (A : Type) :=
| Returns (a : A)
| Throws (message : string)
| Never.
Arguments Returns {A} a.
Arguments Throws {A} message.
Arguments Never {A}.

(** What a run leaves behind: the messages array of the request, the
    engine session and the calls made to the provider. *)
Record Effects := mkEffects {
  messages_after : list Message;
  engine_after : Engine.Session;
  provider_calls : list ProviderCall
}.

(** The promise of the call made in [engine w], once the events are in. *)
Definition awaited (w : World) (fen : string) : Engine.Session * Engine.Promise :=
  let s := Engine.run (Engine.getStockfishAnalysis fen 20 (engine w))
                      (map Engine.AEmit (engine_events w)) in
  (s, match Engine.listeners s !! Engine.handle (engine w) with
      | Some c => Engine.promise c
      | None => Engine.Pending
      end).

Definition streamAnthropicResponse (w : World) (messages : list Message)
    (position apiKey : string) : Completion Transcoder.Stream * Effects :=
  let '(s, p) := awaited w position in
  match p with
  | Engine.Pending =>
      (Never, {| messages_after := messages; engine_after := s; provider_calls := [] |})
  | Engine.Rejected e =>
      (Throws e, {| messages_after := messages; engine_after := s; provider_calls := [] |})
  | Engine.Resolved stockfishAnalysis =>
      let messages' := augment position stockfishAnalysis messages in
      let call := {| apiKey := apiKey;
                     call_model := "claude-sonnet-4-20250514";
                     max_tokens := 4096;
                     call_messages := anthropicMessages messages';
                     stream := true |} in
      let eff := {| messages_after := messages'; engine_after := s;
                    provider_calls := [call] |} in
      match create w call with
      | CreateStream chunks => (Returns (Transcoder.pipeThrough chunks), eff)
      | CreateThrows message => (Throws ("Anthropic API error: " ++ message), eff)
      end
  end.

Inductive Response :=
| JsonResponse (status : N) (error : string)
| EventStream (body : Transcoder.Stream).

(** The key chosen from the model of the request. *)
Definition resolve_key (w : World) (model : string) : string :=
  if String.eqb model "claude-sonnet-4-20250514" then anthropic_key w
  else if String.eqb model "gemini-2.5-pro" then default "" (GEMINI_API_KEY w)
  else "".

(** [POST], for a body that parses to a [ChatRequest]. No response is
    [None]: the handler still awaits the engine. *)
Definition POST (w : World) (body : ChatRequest) : option Response * Effects :=
  let untouched := {| messages_after := messages body; engine_after := engine w;
                      provider_calls := [] |} in
  if negb (chess_load w (position body))
  then (Some (JsonResponse 400 "Invalid chess position"), untouched)
  else
    let apiKey := resolve_key w (model body) in
    if String.eqb apiKey ""
    then (Some (JsonResponse 400 "API key not found for selected model"), untouched)
    else
      match streamAnthropicResponse w (messages body) (position body) apiKey with
      | (Returns response, eff) => (Some (EventStream response), eff)
      | (Throws _, eff) => (Some (JsonResponse 500 "Internal server error"), eff)
      | (Never, eff) => (None, eff)
      end.

End Route.

(** ** Client stream consumer: [handleSend] *)

Module Client.

Section Consumer.

(** [JSON.parse] ([None] when it throws) and the string a value that is not
    a string becomes when it is appended to one. *)
Variable JSON_parse : string -> option json.
Variable ToString : json -> string.

Definition text_of (v : json) : string :=
  match v with JStr s => s | _ => ToString v end.

(** The updater given to [setMessages], run once per call: the last
    message grows when it is the assistant's. [handleSend] has appended
    that message before the first frame is read, so the list is never empty
    here. *)
Definition append_content (delta : string) (prev : list Message) : list Message :=
  match last prev with
  | Some lastMessage =>
      if Role_eqb (role lastMessage) assistant
      then <[length prev - 1 := {| role := role lastMessage;
                                   content := content lastMessage ++ delta |}]> prev
      else prev
  | None => prev
  end.

(** The body of the loop over the lines of a chunk, up to the test of
    [content]: the text to append, if the line carries any. A line that is
    not a data line, the [DONE] line, a line whose parse throws and a
    parsed [null] (reading [choices] throws) give none. *)
Definition content_of (line : string) : option string :=
  if startsWith "data: " line then
    let data := slice 6 line in
    if String.eqb data "[DONE]" then None
    else
      match JSON_parse data with
      | None => None
      | Some JNull => None
      | Some parsed =>
          let found := opt_prop "content"
                         (opt_prop "delta" (opt_index0 (prop "choices" parsed))) in
          match found with
          | Some v => if truthy found then Some (text_of v) else None
          | None => None
          end
      end
  else None.

Definition on_line (line : string) (msgs : list Message) : list Message :=
  match content_of line with
  | Some delta => append_content delta msgs
  | None => msgs
  end.

(** [chunk.split('\n').filter(line => line.trim() !== '')]. *)
Definition lines_of (chunk : string) : list string :=
  List.filter (fun line => negb (blank line)) (split_lines chunk).

Definition on_chunk (chunk : string) (msgs : list Message) : list Message :=
  fold_left (fun m line => on_line line m) (lines_of chunk) msgs.

(** The texts a chunk carries, in the order of its lines. *)
Definition deltas (chunk : string) : list string :=
  omap content_of (lines_of chunk).

(** What [reader.read()] settles with: a chunk, the end of the stream, an
    [AbortError] (the request was cancelled) or another error. *)
Inductive ReadResult :=
| RChunk (value : string)
| RDone
| RAbort
| RFail.

(** How the [try] block ends; [Reading] when the next read is awaited. *)
Inductive Ending := Completed | Cancelled | Failed | Reading.

Fixpoint read_loop (reads : list ReadResult) (msgs : list Message)
    : list Message * Ending :=
  match reads with
  | [] => (msgs, Reading)
  | RChunk value :: rest => read_loop rest (on_chunk value msgs)
  | RDone :: _ => (msgs, Completed)
  | RAbort :: _ => (msgs, Cancelled)
  | RFail :: _ => (msgs, Failed)
  end.

(** What [fetch] and the checks on its response come to. *)
Inductive FetchResult :=
| FetchAbort
| FetchFail
| NotOk
| NoBody
| Body (reads : list ReadResult).

Record ChatState := mkChatState { messages : list Message; isLoading : bool }.

Definition fallback : Message :=
  {| role := assistant;
     content := "Sorry, I encountered an error. Please try again." |}.

Definition handleSend (input : string) (fetched : FetchResult) (st : ChatState)
    : ChatState :=
  if blank input then st
  else
    let sent := (messages st ++ [{| role := user; content := input |}])%list in
    let '(msgs, ending) :=
      match fetched with
      | FetchAbort => (sent, Cancelled)
      | FetchFail | NotOk | NoBody => (sent, Failed)
      | Body reads =>
          read_loop reads (sent ++ [{| role := assistant; content := "" |}])%list
      end in
    match ending with
    | Reading => {| messages := msgs; isLoading := true |}
    | Failed => {| messages := (msgs ++ [fallback])%list; isLoading := false |}
    | Completed | Cancelled => {| messages := msgs; isLoading := false |}
    end.

End Consumer.

End Client.

(** ** The wire between the transcoder and the client *)

Module Wire.

(** Frames sent together: the text of one read of the client. *)
Definition batch (stringify : json -> string) (frames : list Transcoder.Frame) : string :=
  concat_all (map (Transcoder.encode stringify) frames).

(** What [JSON.stringify] and [JSON.parse] do with the data of a content
    frame for the text [t]: the text written has no line feed in it, is not
    the termination marker, and parses back to the data. *)
Definition faithful (JSON_parse : string -> option json) (stringify : json -> string)
    (t : string) : Prop :=
  JSON_parse (stringify (Transcoder.sseData (JStr t))) = Some (Transcoder.sseData (JStr t))
  /\ has_lf (stringify (Transcoder.sseData (JStr t))) = false
  /\ stringify (Transcoder.sseData (JStr t)) <> "[DONE]".

(** The text a frame carries. *)
Definition carried (f : Transcoder.Frame) : list string :=
  match f with
  | Transcoder.ContentFrame (JStr t) => [t]
  | _ => []
  end.

(** The frames the transcoder enqueues for text deltas, over a faithful
    wire: content frames with a text that is not empty, and the
    termination frame. *)
Definition sendable (JSON_parse : string -> option json) (stringify : json -> string)
    (f : Transcoder.Frame) : Prop :=
  match f with
  | Transcoder.ContentFrame (JStr t) => faithful JSON_parse stringify t /\ t <> ""
  | Transcoder.ContentFrame _ => False
  | Transcoder.TerminationFrame => True
  end.

End Wire.

(** ** Worlds and requests used to run the handlers on concrete inputs *)

Module Scenario.

Definition start_fen : string :=
  "rnbqkbnr/pppppppp/8/8/8/8/PPPPPPPP/RNBQKBNR w KQkq - 0 1".

(** A text delta and an error event of the provider, parsed. *)
Definition text_delta (t : string) : Transcoder.Chunk :=
  Transcoder.Parsed
    (JObj [("type", JStr "content_block_delta");
           ("index", JNum 0);
           ("delta", JObj [("type", JStr "text_delta"); ("text", JStr t)])]).

Definition error_chunk : Transcoder.Chunk :=
  Transcoder.Parsed
    (JObj [("type", JStr "error");
           ("error", JObj [("type", JStr "overloaded_error");
                           ("message", JStr "Overloaded")])]).

(** The engine answers the request at once; the provider streams three
    deltas; only the starting position is offered, so [chess_load] is
    asked about nothing else than it and a string that is no position. *)
Definition world : Route.World :=
  {| Route.chess_load := fun fen => String.eqb fen start_fen;
     Route.anthropic_key := "sk-test";
     Route.GEMINI_API_KEY := None;
     Route.engine := Engine.init;
     Route.engine_events :=
       [Engine.StdoutData ("info depth 20 score cp 30 pv e2e4" ++ nl);
        Engine.StdoutData ("bestmove e2e4 ponder e7e5" ++ nl)];
     Route.create := fun _ =>
       Route.CreateStream [text_delta "The "; text_delta "best ";
                           text_delta "move is e4."] |}.

Definition question : Message :=
  {| role := user; content := "What's best here?" |}.

Definition coach : Message :=
  {| role := system; content := "You are a helpful chess coach." |}.

Definition request (msgs : list Message) (fen : string) : Route.ChatRequest :=
  {| Route.messages := msgs; Route.position := fen;
     Route.model := "claude-sonnet-4-20250514" |}.

(** The same world with a key configured for the second model, and a
    request that selects that model. *)
Definition gemini_world : Route.World :=
  {| Route.chess_load := Route.chess_load world;
     Route.anthropic_key := Route.anthropic_key world;
     Route.GEMINI_API_KEY := Some "gemini-test";
     Route.engine := Route.engine world;
     Route.engine_events := Route.engine_events world;
     Route.create := Route.create world |}.

Definition gemini_request : Route.ChatRequest :=
  {| Route.messages := [coach; question]; Route.position := start_fen;
     Route.model := "gemini-2.5-pro" |}.

(** The JSON text of a content frame whose text needs no escape, and
    [JSON.parse] and [JSON.stringify] on the three frames of [world]. *)
Definition quote : string := String "034"%char EmptyString.

Definition frame_json (t : string) : string :=
  "{" ++ quote ++ "choices" ++ quote ++ ":[{" ++ quote ++ "delta" ++ quote ++
  ":{" ++ quote ++ "content" ++ quote ++ ":" ++ quote ++ t ++ quote ++ "}}]}".

Definition parse (text : string) : option json :=
  option_map (fun t => Transcoder.sseData (JStr t))
    (List.find (fun t => String.eqb text (frame_json t))
       ["The "; "best "; "move is e4."]).

Definition stringify (v : json) : string :=
  match v with
  | JObj [(_, JArr [JObj [(_, JObj [(_, JStr t)])]])] => frame_json t
  | _ => "null"
  end.

Definition to_string (v : json) : string := "[object Object]".

(** The world with an engine that prints and never finds a move, with an
    engine whose process fails, and with a provider that refuses the call. *)
Definition with_engine (evs : list Engine.ProcEvent) : Route.World :=
  {| Route.chess_load := Route.chess_load world;
     Route.anthropic_key := Route.anthropic_key world;
     Route.GEMINI_API_KEY := Route.GEMINI_API_KEY world;
     Route.engine := Route.engine world;
     Route.engine_events := evs;
     Route.create := Route.create world |}.

Definition silent_world : Route.World :=
  with_engine [Engine.StdoutData ("info depth 1 score cp 20 pv e2e4" ++ nl);
               Engine.StderrData "warning"].

Definition crashed_world : Route.World :=
  with_engine [Engine.ProcError "spawn stockfish ENOENT"].

Definition refusing_world : Route.World :=
  {| Route.chess_load := Route.chess_load world;
     Route.anthropic_key := Route.anthropic_key world;
     Route.GEMINI_API_KEY := Route.GEMINI_API_KEY world;
     Route.engine := Route.engine world;
     Route.engine_events := Route.engine_events world;
     Route.create := fun _ => Route.CreateThrows "401 invalid x-api-key" |}.

End Scenario.

(** * Properties *)

(** ** Strings *)

Lemma append_assoc (a b c : string) : (a ++ b) ++ c = a ++ (b ++ c).
Proof.
  induction a as [|x a IH]; [reflexivity|].
  change (String x ((a ++ b) ++ c) = String x (a ++ (b ++ c))). now rewrite IH.
Qed.

Lemma append_empty_r (a : string) : a ++ "" = a.
Proof.
  induction a as [|x a IH]; [reflexivity|].
  change (String x (a ++ "") = String x a). now rewrite IH.
Qed.

(** ** Engine session *)

Section EngineFacts.

Import Engine.

(** A settled promise stays as it is. *)
Lemma on_event_settled (ev : ProcEvent) (c : Call) :
  promise c <> Pending -> promise (on_event ev c) = promise c.
Proof.
  intros Hc. destruct ev as [d|d|e]; simpl; [|reflexivity|].
  - destruct (includes "bestmove" d); [|reflexivity].
    destruct (promise c); [congruence|reflexivity|reflexivity].
  - destruct (promise c); [congruence|reflexivity|reflexivity].
Qed.

Lemma follow_settled (c : Call) (evs : list ProcEvent) :
  promise c <> Pending -> promise (follow c evs) = promise c.
Proof.
  revert c. induction evs as [|ev evs IH]; intros c Hc; [reflexivity|].
  change (promise (follow (on_event ev c) evs) = promise c).
  rewrite IH; rewrite on_event_settled; auto.
Qed.

(** A pending call settles as [settle] reads it off the events. *)
Lemma follow_pending (acc : string) (evs : list ProcEvent) :
  promise (follow {| analysis := acc; promise := Pending |} evs) = settle acc evs.
Proof.
  revert acc. induction evs as [|ev evs IH]; intros acc; [reflexivity|].
  change (promise (follow (on_event ev {| analysis := acc; promise := Pending |}) evs)
          = settle acc (ev :: evs)).
  destruct ev as [d|d|e]; simpl.
  - destruct (includes "bestmove" d) eqn:Hd.
    + now rewrite follow_settled.
    + apply IH.
  - apply IH.
  - now rewrite follow_settled.
Qed.

(** No action removes or reorders the calls made before it. *)
Lemma run_lookup (acts : list Action) (s : Session) (i : nat) (c : Call) :
  listeners s !! i = Some c ->
  listeners (run s acts) !! i = Some (follow c (events_of acts)).
Proof.
  revert s c. induction acts as [|a acts IH]; intros s c Hi; [exact Hi|].
  destruct a as [fen depth|ev]; simpl.
  - apply IH. simpl. apply lookup_app_l_Some, Hi.
  - unfold run, follow in *. simpl. apply (IH (emit ev s)).
    simpl. rewrite list_lookup_fmap, Hi. reflexivity.
Qed.

Lemma run_stdin_emit (evs : list ProcEvent) (s : Session) :
  stdin (run s (map AEmit evs)) = stdin s.
Proof.
  revert s. induction evs as [|ev evs IH]; intros s; [reflexivity|].
  unfold run in *. simpl. now rewrite IH.
Qed.

Lemma events_of_emit (evs : list ProcEvent) : events_of (map AEmit evs) = evs.
Proof. induction evs as [|ev evs IH]; simpl; [reflexivity | now rewrite IH]. Qed.

(** The promise of a call, whatever else the session does meanwhile. *)
Lemma call_settles (s : Session) (fen : string) (depth : N) (acts : list Action) :
  promise <$> listeners (run (getStockfishAnalysis fen depth s) acts) !! handle s
  = Some (settle "" (events_of acts)).
Proof.
  rewrite (run_lookup acts _ (handle s) fresh).
  - simpl. f_equal. apply follow_pending.
  - simpl. unfold handle. now rewrite lookup_app_r, Nat.sub_diag by lia.
Qed.

End EngineFacts.

(** C1, as the code has it: the session does not serialize analyze calls.
    A call writes its position-set and go-depth commands to the input of
    the process at once, after whatever was written before and whether or
    not earlier calls are in flight; every output chunk emitted after the
    call, whichever request caused it, is appended to the call's text, and
    the call resolves with that text at the first such chunk that contains
    the sentinel (or rejects at the first process error). *)
Theorem C1_calls_write_at_once_and_share_output
    (s : Engine.Session) (fen : string) (depth : N) (acts : list Engine.Action) :
  let s0 := Engine.getStockfishAnalysis fen depth s in
  Engine.stdin s0
    = (Engine.stdin s ++ [("position fen " ++ fen ++ nl)%string;
                          ("go depth " ++ string_of_N depth ++ nl)%string])%list
  /\ Engine.promise <$> Engine.listeners (Engine.run s0 acts) !! Engine.handle s
     = Some (Engine.settle "" (Engine.events_of acts)).
Proof.
  split; [reflexivity | apply call_settles].
Qed.

(** C1 fails on the code: a second call made while the first is in flight,
    before any output of the engine, has its commands on the input stream
    already; and the output that follows settles both calls with the same
    text. *)
Lemma C1_second_call_not_delayed :
  let s := Engine.run Engine.init [Engine.ACall "8/8/8/8/8/8/8/K6k w - - 0 1" 20;
                                   Engine.ACall Scenario.start_fen 20] in
  Engine.in_flight s 0 = true
  /\ Engine.stdin s
     = ["position fen 8/8/8/8/8/8/8/K6k w - - 0 1" ++ nl; "go depth 20" ++ nl;
        "position fen " ++ Scenario.start_fen ++ nl; "go depth 20" ++ nl]
  /\ Engine.promise <$>
       Engine.listeners
         (Engine.run s [Engine.AEmit (Engine.StdoutData "info depth 1 pv a1a2 ");
                        Engine.AEmit (Engine.StdoutData "bestmove a1a2")])
     = [Engine.Resolved "info depth 1 pv a1a2 bestmove a1a2";
        Engine.Resolved "info depth 1 pv a1a2 bestmove a1a2"].
Proof. vm_compute. repeat split. Qed.

(** ** Stream transcoder *)

Section TranscoderFacts.

Import Transcoder.

Lemma pipe_settled (chunks : list Chunk) (st : Stream) :
  status st <> Open -> pipe chunks st = st.
Proof. destruct chunks; simpl; destruct (status st); congruence. Qed.

(** The whole run of the pipe, from an open stream. *)
Lemma pipe_open (chunks : list Chunk) (st : Stream) :
  status st = Open ->
  pipe chunks st
  = {| enqueued := (enqueued st ++ flat_map frames_of (before_throw chunks) ++
                    match failure chunks with
                    | None => [TerminationFrame]
                    | Some _ => []
                    end)%list;
       status := match failure chunks with
                 | None => Closed
                 | Some e => Errored e
                 end |}.
Proof.
  revert st. induction chunks as [|c rest IH]; intros [q stat] Hst; simpl in *; subst stat.
  - reflexivity.
  - unfold transform, throws.
    destruct (process c) as [e|[f|]] eqn:Hc; simpl;
      try (unfold frames_of at 1; rewrite Hc); simpl.
    + rewrite pipe_settled by (simpl; congruence). now rewrite app_nil_r.
    + rewrite IH by reflexivity. simpl. now rewrite <- app_assoc.
    + now rewrite IH.
Qed.

Lemma pipeThrough_spec (chunks : list Chunk) :
  pipeThrough chunks
  = {| enqueued := (flat_map frames_of (before_throw chunks) ++
                    match failure chunks with
                    | None => [TerminationFrame]
                    | Some _ => []
                    end)%list;
       status := match failure chunks with
                 | None => Closed
                 | Some e => Errored e
                 end |}.
Proof. unfold pipeThrough. now rewrite pipe_open. Qed.

(** No chunk is transformed into a termination frame. *)
Lemma frames_of_content (chunks : list Chunk) :
  List.filter is_termination (flat_map frames_of chunks) = [].
Proof.
  induction chunks as [|c rest IH]; [reflexivity|].
  simpl. rewrite List.filter_app, IH, app_nil_r.
  unfold frames_of, process.
  destruct c as [|data]; [reflexivity|].
  destruct data; try reflexivity;
    repeat match goal with
           | |- context [if ?b then _ else _] => destruct b
           | |- context [match ?o with Some _ => _ | None => _ end] => destruct o
           end; reflexivity.
Qed.

Lemma failure_app_throw (pre post : list Chunk) (c : Chunk) (e : JsError) :
  process c = inl e ->
  failure (pre ++ c :: post) = Some (default e (failure pre))
  /\ before_throw (pre ++ c :: post) = before_throw pre.
Proof.
  intros Hc. induction pre as [|x pre [IH1 IH2]]; simpl.
  - unfold throws. now rewrite Hc.
  - unfold throws. destruct (process x); [easy|]. now rewrite IH1, IH2.
Qed.

(** A chunk of type [error] makes [transform] throw. *)
Lemma error_chunk_throws (fields : list (string * json)) :
  assoc "type" fields = Some (JStr "error") ->
  exists message, process (Parsed (JObj fields)) = inl (StreamError message).
Proof.
  intros Hty. unfold process. simpl. rewrite Hty. simpl. eauto.
Qed.

(** A parsed chunk that is neither [null], a text delta nor an error is
    passed over: the next chunk is transformed in the same state. *)
Lemma other_chunk_skipped (c : Chunk) (rest : list Chunk) (st : Stream) :
  process c = inr None -> pipe (c :: rest) st = pipe rest st.
Proof.
  intros Hc. simpl. unfold transform. rewrite Hc.
  destruct (status st) eqn:Hst; [reflexivity| |]; rewrite pipe_settled; congruence.
Qed.

End TranscoderFacts.

(** C2, as the code has it: the output of the transcoder ends with exactly
    one termination frame exactly for the chunk sequences over which
    [transform] never throws; at the first chunk that throws (an error
    chunk, an unparseable chunk or [null]) the stream is errored, and what
    it has enqueued is the frames of the chunks before, with no termination
    frame. *)
Theorem C2_termination_frame_only_without_error (chunks : list Transcoder.Chunk) :
  let out := Transcoder.pipeThrough chunks in
  Transcoder.enqueued out
  = (flat_map Transcoder.frames_of (Transcoder.before_throw chunks) ++
     match Transcoder.failure chunks with
     | None => [Transcoder.TerminationFrame]
     | Some _ => []
     end)%list
  /\ match Transcoder.failure chunks with
     | None =>
         Transcoder.status out = Transcoder.Closed
         /\ last (Transcoder.enqueued out) = Some Transcoder.TerminationFrame
         /\ Transcoder.terminations out = 1
     | Some e =>
         Transcoder.status out = Transcoder.Errored e
         /\ Transcoder.terminations out = 0
     end.
Proof.
  intros out. subst out. rewrite pipeThrough_spec. unfold Transcoder.terminations.
  cbn [Transcoder.enqueued Transcoder.status]. split; [reflexivity|].
  destruct (Transcoder.failure chunks).
  - rewrite app_nil_r, frames_of_content. now split.
  - rewrite last_snoc, List.filter_app, frames_of_content. now repeat split.
Qed.

(** C2 fails on the code: after a text delta, an error chunk of the
    provider errors the stream, and the output ends with the content frame
    and carries no termination frame. *)
Lemma C2_error_chunk_no_termination_frame :
  let out := Transcoder.pipeThrough [Scenario.text_delta "The "; Scenario.error_chunk] in
  Transcoder.enqueued out = [Transcoder.ContentFrame (JStr "The ")]
  /\ Transcoder.status out = Transcoder.Errored (Transcoder.StreamError (JStr "Overloaded"))
  /\ last (Transcoder.enqueued out) <> Some Transcoder.TerminationFrame
  /\ Transcoder.terminations out = 0.
Proof. vm_compute. repeat split. discriminate. Qed.

(** C3, as the code has it: a chunk that cannot be parsed is fatal. The
    stream is errored at that chunk (or at an earlier chunk that threw);
    the chunks after it are not transcoded, nothing is enqueued after the
    frames of the chunks before it, and no termination frame is emitted. *)
Theorem C3_unparseable_chunk_errors_the_stream (pre post : list Transcoder.Chunk) :
  let out := Transcoder.pipeThrough (pre ++ Transcoder.Unparseable :: post) in
  out = Transcoder.pipeThrough (pre ++ [Transcoder.Unparseable])
  /\ Transcoder.status out
     = Transcoder.Errored (default Transcoder.SyntaxError (Transcoder.failure pre))
  /\ Transcoder.enqueued out
     = flat_map Transcoder.frames_of (Transcoder.before_throw pre)
  /\ Transcoder.terminations out = 0.
Proof.
  intros out. subst out. rewrite !pipeThrough_spec. unfold Transcoder.terminations.
  destruct (failure_app_throw pre post Transcoder.Unparseable Transcoder.SyntaxError
              eq_refl) as [Hf Hb].
  destruct (failure_app_throw pre [] Transcoder.Unparseable Transcoder.SyntaxError
              eq_refl) as [Hf' Hb'].
  rewrite Hf, Hb, Hf', Hb'. cbn [Transcoder.enqueued Transcoder.status].
  rewrite app_nil_r, frames_of_content. now repeat split.
Qed.

(** C3 fails on the code: an unparseable chunk between two text deltas is
    not skipped; the second delta is never transcoded and the stream ends
    in error, unlike the stream of the two deltas alone. *)
Lemma C3_unparseable_chunk_not_skipped :
  Transcoder.pipeThrough [Scenario.text_delta "The "; Transcoder.Unparseable;
                          Scenario.text_delta "best "]
  = {| Transcoder.enqueued := [Transcoder.ContentFrame (JStr "The ")];
       Transcoder.status := Transcoder.Errored Transcoder.SyntaxError |}
  /\ Transcoder.enqueued
       (Transcoder.pipeThrough [Scenario.text_delta "The "; Scenario.text_delta "best "])
     = [Transcoder.ContentFrame (JStr "The "); Transcoder.ContentFrame (JStr "best ");
        Transcoder.TerminationFrame].
Proof. vm_compute. split; reflexivity. Qed.

(** ** Prompt augmentation and the provider boundary *)

Section RouteFacts.

Import Route.

(** [findLast] returns an element that satisfies the test, at its index,
    and nothing after it does. *)
Lemma findLast_Some {A : Type} (p : A -> bool) (l : list A) (i : nat) (x : A) :
  findLast p l = Some (i, x) ->
  l !! i = Some x /\ p x = true
  /\ forall j y, i < j -> l !! j = Some y -> p y = false.
Proof.
  revert i. induction l as [|a l IH]; intros i H; simpl in H; [discriminate|].
  destruct (findLast p l) as [[k y]|] eqn:Hl.
  - inversion H; subst. destruct (IH k eq_refl) as (Hk & Hp & Hafter).
    repeat split; auto.
    intros [|j] z Hj Hz; [lia|]. apply (Hafter j z); [lia | exact Hz].
  - destruct (p a) eqn:Hp; [|discriminate]. inversion H; subst.
    repeat split; auto.
    intros [|j] z Hj Hz; [lia|]. simpl in Hz.
    clear -Hl Hz. revert j Hz. induction l as [|b l IHl]; intros j Hz; [discriminate|].
    simpl in Hl. destruct (findLast p l) as [[? ?]|]; [discriminate|].
    destruct (p b) eqn:Hb; [discriminate|].
    destruct j as [|j]; simpl in Hz; [now inversion Hz; subst | eauto].
Qed.

Lemma findLast_None {A : Type} (p : A -> bool) (l : list A) :
  findLast p l = None <-> Forall (fun x => p x = false) l.
Proof.
  induction l as [|a l IH]; simpl; [split; auto|].
  destruct (findLast p l) as [[k y]|].
  - split; [discriminate|]. intros H. inversion H; subst.
    destruct IH as [_ IH]. now specialize (IH ltac:(assumption)).
  - destruct (p a) eqn:Hp; split; try discriminate; intros H.
    + inversion H; congruence.
    + constructor; [assumption | now apply IH].
    + reflexivity.
Qed.

Lemma is_user_true (m : Message) : is_user m = true <-> role m = user.
Proof. unfold is_user. destruct (role m); simpl; split; congruence. Qed.

Lemma augment_length (position analysis : string) (msgs : list Message) :
  length (augment position analysis msgs) = length msgs.
Proof.
  unfold augment. destruct (findLast is_user msgs) as [[i m]|]; [|reflexivity].
  apply length_insert.
Qed.

(** Augmentation changes at most the element [findLast] points at. *)
Lemma augment_other (position analysis : string) (msgs : list Message) (j : nat) :
  augment position analysis msgs !! j = msgs !! j
  \/ fst <$> findLast is_user msgs = Some j.
Proof.
  unfold augment. destruct (findLast is_user msgs) as [[i m]|]; [|now left].
  destruct (decide (i = j)) as [->|Hne]; [now right|].
  left. now apply list_lookup_insert_ne.
Qed.

Lemma augment_roles (position analysis : string) (msgs : list Message) :
  map role (augment position analysis msgs) = map role msgs.
Proof.
  unfold augment. destruct (findLast is_user msgs) as [[i m]|] eqn:Hf; [|reflexivity].
  destruct (findLast_Some _ _ _ _ Hf) as (Hi & _ & _).
  apply list_eq. intros j. rewrite !list_lookup_fmap.
  destruct (decide (i = j)) as [->|Hne].
  - rewrite list_lookup_insert_eq by (eapply lookup_lt_Some; eauto).
    now rewrite Hi.
  - now rewrite list_lookup_insert_ne.
Qed.

Lemma augment_no_user (position analysis : string) (msgs : list Message) :
  Forall (fun m => role m <> user) msgs -> augment position analysis msgs = msgs.
Proof.
  intros H. unfold augment.
  assert (Hn : findLast is_user msgs = None).
  { apply findLast_None. eapply Forall_impl; [exact H|].
    intros m Hm. simpl. destruct (is_user m) eqn:Hu; [|reflexivity].
    now apply is_user_true in Hu. }
  now rewrite Hn.
Qed.

(** The conversion of roles keeps what the filter lets through. *)
Lemma anthropicMessages_filter (msgs : list Message) :
  anthropicMessages msgs
  = List.filter (fun m => negb (Role_eqb (role m) system)) msgs.
Proof.
  unfold anthropicMessages. induction msgs as [|[r c] msgs IH]; [reflexivity|].
  simpl. destruct r; simpl; now rewrite ?IH.
Qed.

Lemma anthropicMessages_no_system (msgs : list Message) :
  Forall (fun m => role m <> system) (anthropicMessages msgs).
Proof.
  rewrite anthropicMessages_filter. apply Forall_forall. intros m Hm.
  apply list_elem_of_In, List.filter_In in Hm. destruct Hm as [_ Hm].
  destruct (role m); simpl in Hm; congruence.
Qed.

Lemma filter_roles (msgs : list Message) :
  map role (List.filter (fun m => negb (Role_eqb (role m) system)) msgs)
  = List.filter (fun r => negb (Role_eqb r system)) (map role msgs).
Proof.
  induction msgs as [|[r c] msgs IH]; [reflexivity|].
  simpl. destruct r; simpl; now rewrite IH.
Qed.

(** The promise [streamAnthropicResponse] awaits, read off the events. *)
Lemma awaited_settle (w : World) (fen : string) :
  snd (awaited w fen) = Engine.settle "" (engine_events w).
Proof.
  unfold awaited. simpl.
  pose proof (call_settles (engine w) fen 20 (map Engine.AEmit (engine_events w))) as H.
  rewrite events_of_emit in H.
  destruct (Engine.listeners _ !! _); simpl in H; now inversion H.
Qed.

Lemma awaited_stdin (w : World) (fen : string) :
  Engine.stdin (fst (awaited w fen))
  = (Engine.stdin (engine w) ++ [("position fen " ++ fen ++ nl)%string;
                                 ("go depth 20" ++ nl)%string])%list.
Proof. unfold awaited. simpl. now rewrite run_stdin_emit. Qed.

(** What the provider call leaves behind, by the outcome of the analysis. *)
Lemma stream_effects (w : World) (msgs : list Message) (position key : string) :
  snd (streamAnthropicResponse w msgs position key)
  = match snd (awaited w position) with
    | Engine.Resolved analysis =>
        {| messages_after := augment position analysis msgs;
           engine_after := fst (awaited w position);
           provider_calls :=
             [{| apiKey := key; call_model := "claude-sonnet-4-20250514";
                 max_tokens := 4096;
                 call_messages := anthropicMessages (augment position analysis msgs);
                 stream := true |}] |}
    | _ => {| messages_after := msgs; engine_after := fst (awaited w position);
              provider_calls := [] |}
    end.
Proof.
  unfold streamAnthropicResponse. destruct (awaited w position) as [s p]. simpl.
  destruct p; try reflexivity. now destruct (create w _).
Qed.

(** The same for [POST], past the two validations. *)
Lemma POST_effects (w : World) (body : ChatRequest) :
  chess_load w (position body) = true ->
  resolve_key w (model body) <> "" ->
  snd (POST w body)
  = snd (streamAnthropicResponse w (messages body) (position body)
           (resolve_key w (model body))).
Proof.
  intros Hv Hk. unfold POST. rewrite Hv. simpl.
  apply String.eqb_neq in Hk. rewrite Hk.
  now destruct (streamAnthropicResponse _ _ _ _) as [[r|m|] eff].
Qed.

(** Whatever the request, [POST] leaves the messages as they were or
    augmented with the analysis the engine resolved with. *)
Lemma POST_messages_after (w : World) (body : ChatRequest) :
  messages_after (snd (POST w body)) = messages body
  \/ exists analysis,
       snd (awaited w (position body)) = Engine.Resolved analysis
       /\ messages_after (snd (POST w body))
          = augment (position body) analysis (messages body).
Proof.
  unfold POST. destruct (chess_load w (position body)); simpl; [|now left].
  destruct (String.eqb (resolve_key w (model body)) ""); [now left|].
  pose proof (stream_effects w (messages body) (position body)
                (resolve_key w (model body))) as H.
  destruct (streamAnthropicResponse _ _ _ _) as [[r|m|] eff];
    cbn [snd] in H |- *; subst eff;
    (destruct (snd (awaited w (position body))) eqn:Ha; cbn [messages_after];
     [now left | right; eauto | now left]).
Qed.

End RouteFacts.

(** C4: when the conversation has a user turn, augmentation rewrites the
    most recent one, and only it: its content becomes the position, then
    the analysis, then the original content at the end; every other
    message and the length of the conversation are unchanged. *)
Theorem C4_augment_rewrites_last_user_turn
    (position analysis : string) (msgs : list Message) :
  Exists (fun m => role m = user) msgs ->
  exists (i : nat) (m : Message),
    msgs !! i = Some m /\ role m = user
    /\ (forall j n, i < j -> msgs !! j = Some n -> role n <> user)
    /\ Route.augment position analysis msgs !! i
       = Some {| role := user;
                 content := "Chess position (FEN): " ++ position ++ nl ++
                            "Stockfish analysis:" ++ nl ++ analysis ++ nl ++ nl ++
                            "User question: " ++ content m |}
    /\ (forall j, j <> i -> Route.augment position analysis msgs !! j = msgs !! j)
    /\ length (Route.augment position analysis msgs) = length msgs.
Proof.
  intros Hex.
  destruct (Route.findLast Route.is_user msgs) as [[i m]|] eqn:Hf.
  - destruct (findLast_Some _ _ _ _ Hf) as (Hi & Hu & Hafter).
    apply is_user_true in Hu.
    exists i, m. repeat split; auto.
    + intros j n Hj Hn Hr. apply is_user_true in Hr.
      rewrite (Hafter j n Hj Hn) in Hr. discriminate.
    + unfold Route.augment. rewrite Hf, Hu.
      apply list_lookup_insert_eq. eapply lookup_lt_Some; eauto.
    + intros j Hj. unfold Route.augment. rewrite Hf.
      now apply list_lookup_insert_ne.
    + apply augment_length.
  - exfalso. apply findLast_None in Hf.
    apply Exists_exists in Hex. destruct Hex as (m & Hm & Hu).
    rewrite Forall_forall in Hf. specialize (Hf m Hm).
    apply is_user_true in Hu. congruence.
Qed.

Lemma C4_witness :
  Exists (fun m => role m = user) [Scenario.coach; Scenario.question]
  /\ exists (i : nat) (m : Message),
       [Scenario.coach; Scenario.question] !! i = Some m /\ role m = user
       /\ (forall j n, i < j ->
             [Scenario.coach; Scenario.question] !! j = Some n -> role n <> user)
       /\ Route.augment Scenario.start_fen "bestmove e2e4"
            [Scenario.coach; Scenario.question] !! i
          = Some {| role := user;
                    content := "Chess position (FEN): " ++ Scenario.start_fen ++ nl ++
                               "Stockfish analysis:" ++ nl ++ "bestmove e2e4" ++ nl ++ nl ++
                               "User question: " ++ content m |}
       /\ (forall j, j <> i ->
             Route.augment Scenario.start_fen "bestmove e2e4"
               [Scenario.coach; Scenario.question] !! j
             = [Scenario.coach; Scenario.question] !! j)
       /\ length (Route.augment Scenario.start_fen "bestmove e2e4"
                    [Scenario.coach; Scenario.question])
          = length [Scenario.coach; Scenario.question].
Proof.
  split.
  - apply Exists_cons_tl, Exists_cons_hd. reflexivity.
  - apply (C4_augment_rewrites_last_user_turn Scenario.start_fen "bestmove e2e4"
             [Scenario.coach; Scenario.question]).
    apply Exists_cons_tl, Exists_cons_hd. reflexivity.
Defined.

(** C5, as the code has it: without a user turn, augmentation is a no-op
    and no error is raised. Once the analysis has resolved the messages are
    left as they are, the provider is called with them (system turns
    filtered out), and the result is whatever that call gives. *)
Theorem C5_no_user_turn_proceeds_to_provider
    (w : Route.World) (msgs : list Message) (position key analysis : string) :
  Forall (fun m => role m <> user) msgs ->
  snd (Route.awaited w position) = Engine.Resolved analysis ->
  let call := {| Route.apiKey := key;
                 Route.call_model := "claude-sonnet-4-20250514";
                 Route.max_tokens := 4096;
                 Route.call_messages := Route.anthropicMessages msgs;
                 Route.stream := true |} in
  Route.augment position analysis msgs = msgs
  /\ Route.streamAnthropicResponse w msgs position key
     = (match Route.create w call with
        | Route.CreateStream chunks => Route.Returns (Transcoder.pipeThrough chunks)
        | Route.CreateThrows message =>
            Route.Throws ("Anthropic API error: " ++ message)
        end,
        {| Route.messages_after := msgs;
           Route.engine_after := fst (Route.awaited w position);
           Route.provider_calls := [call] |}).
Proof.
  intros Hno Ha call. subst call. split; [now apply augment_no_user|].
  unfold Route.streamAnthropicResponse.
  destruct (Route.awaited w position) as [s p]. simpl in Ha. subst p.
  rewrite (augment_no_user _ _ _ Hno). cbn [fst].
  now destruct (Route.create w _).
Qed.

Lemma C5_witness :
  Forall (fun m => role m <> user) [Scenario.coach]
  /\ snd (Route.awaited Scenario.world Scenario.start_fen)
     = Engine.Resolved ("info depth 20 score cp 30 pv e2e4" ++ nl ++
                        "bestmove e2e4 ponder e7e5" ++ nl)
  /\ Route.augment Scenario.start_fen
       ("info depth 20 score cp 30 pv e2e4" ++ nl ++ "bestmove e2e4 ponder e7e5" ++ nl)
       [Scenario.coach]
     = [Scenario.coach].
Proof.
  assert (H1 : Forall (fun m => role m <> user) [Scenario.coach])
    by (repeat constructor; discriminate).
  assert (H2 : snd (Route.awaited Scenario.world Scenario.start_fen)
               = Engine.Resolved ("info depth 20 score cp 30 pv e2e4" ++ nl ++
                                  "bestmove e2e4 ponder e7e5" ++ nl))
    by reflexivity.
  split; [exact H1|]. split; [exact H2|].
  exact (proj1 (C5_no_user_turn_proceeds_to_provider Scenario.world [Scenario.coach]
                  Scenario.start_fen "sk-test" _ H1 H2)).
Defined.

(** C5 fails on the code: for a conversation with a system turn only, the
    handler raises no error; it answers with the event stream of the
    provider, which it has called with an empty list of messages. *)
Lemma C5_no_user_turn_no_error :
  Route.POST Scenario.world (Scenario.request [Scenario.coach] Scenario.start_fen)
  = (Some (Route.EventStream
             {| Transcoder.enqueued :=
                  [Transcoder.ContentFrame (JStr "The ");
                   Transcoder.ContentFrame (JStr "best ");
                   Transcoder.ContentFrame (JStr "move is e4.");
                   Transcoder.TerminationFrame];
                Transcoder.status := Transcoder.Closed |}),
     {| Route.messages_after := [Scenario.coach];
        Route.engine_after :=
          fst (Route.awaited Scenario.world Scenario.start_fen);
        Route.provider_calls :=
          [{| Route.apiKey := "sk-test";
              Route.call_model := "claude-sonnet-4-20250514";
              Route.max_tokens := 4096;
              Route.call_messages := [];
              Route.stream := true |}] |}).
Proof. vm_compute. reflexivity. Qed.

(** ** The request handler *)

(** C6: a request whose position [chess.load] rejects gets the JSON error
    response with status 400; nothing is written to the engine, whose
    session is as it was, and the provider is not called. *)
Theorem C6_invalid_position_rejected (w : Route.World) (body : Route.ChatRequest) :
  Route.chess_load w (Route.position body) = false ->
  fst (Route.POST w body) = Some (Route.JsonResponse 400 "Invalid chess position")
  /\ Route.engine_after (snd (Route.POST w body)) = Route.engine w
  /\ Engine.stdin (Route.engine_after (snd (Route.POST w body)))
     = Engine.stdin (Route.engine w)
  /\ Route.provider_calls (snd (Route.POST w body)) = [].
Proof.
  intros Hbad. unfold Route.POST. rewrite Hbad. now repeat split.
Qed.

Lemma C6_witness :
  Route.chess_load Scenario.world "not a position" = false
  /\ fst (Route.POST Scenario.world
            (Scenario.request [Scenario.coach; Scenario.question] "not a position"))
     = Some (Route.JsonResponse 400 "Invalid chess position")
  /\ Route.provider_calls
       (snd (Route.POST Scenario.world
               (Scenario.request [Scenario.coach; Scenario.question] "not a position")))
     = [].
Proof.
  split; [reflexivity|].
  destruct (C6_invalid_position_rejected Scenario.world
              (Scenario.request [Scenario.coach; Scenario.question] "not a position")
              eq_refl) as (Hresp & _ & _ & Hcalls).
  split; [exact Hresp | exact Hcalls].
Defined.

(** C7: no message sent to the provider has the system role. The messages
    sent are the messages of the conversation that are not system turns,
    as they stand after augmentation, each one unchanged and in the same
    order; their roles are the roles of the incoming conversation with the
    system ones taken out. *)
Theorem C7_no_system_turn_reaches_provider (w : Route.World) (body : Route.ChatRequest) :
  (forall msgs : list Message,
      Forall (fun m => role m <> system) (Route.anthropicMessages msgs)
      /\ Route.anthropicMessages msgs
         = List.filter (fun m => negb (Role_eqb (role m) system)) msgs)
  /\ Forall
       (fun call =>
          Forall (fun m => role m <> system) (Route.call_messages call)
          /\ Route.call_messages call
             = List.filter (fun m => negb (Role_eqb (role m) system))
                 (Route.messages_after (snd (Route.POST w body)))
          /\ map role (Route.call_messages call)
             = List.filter (fun r => negb (Role_eqb r system))
                 (map role (Route.messages body)))
       (Route.provider_calls (snd (Route.POST w body))).
Proof.
  split.
  - intros msgs. split; [apply anthropicMessages_no_system | apply anthropicMessages_filter].
  - unfold Route.POST.
    destruct (Route.chess_load w (Route.position body)); simpl; [|constructor].
    destruct (String.eqb (Route.resolve_key w (Route.model body)) ""); [constructor|].
    pose proof (stream_effects w (Route.messages body) (Route.position body)
                  (Route.resolve_key w (Route.model body))) as H.
    assert (Hgoal : Forall
       (fun call =>
          Forall (fun m => role m <> system) (Route.call_messages call)
          /\ Route.call_messages call
             = List.filter (fun m => negb (Role_eqb (role m) system))
                 (Route.messages_after
                    (snd (Route.streamAnthropicResponse w (Route.messages body)
                            (Route.position body)
                            (Route.resolve_key w (Route.model body)))))
          /\ map role (Route.call_messages call)
             = List.filter (fun r => negb (Role_eqb r system))
                 (map role (Route.messages body)))
       (Route.provider_calls
          (snd (Route.streamAnthropicResponse w (Route.messages body)
                  (Route.position body)
                  (Route.resolve_key w (Route.model body)))))).
    { rewrite H. destruct (snd (Route.awaited w (Route.position body)));
        cbn [Route.provider_calls Route.messages_after]; constructor; [|constructor].
      cbn [Route.call_messages]. split; [apply anthropicMessages_no_system|].
      split; [apply anthropicMessages_filter|].
      now rewrite anthropicMessages_filter, filter_roles, augment_roles. }
    now destruct (Route.streamAnthropicResponse _ _ _ _) as [[r|m|] eff].
Qed.

(** C8, as the code has it: the request is not left as it came. Its
    messages are as they were, or, once the analysis has resolved, they are
    the augmented ones: the same number of messages with the same roles,
    each with its content unchanged except the one [findLast] finds, the
    most recent user turn, which is rewritten in place. *)
Theorem C8_request_rewritten_only_at_last_user_turn
    (w : Route.World) (body : Route.ChatRequest) :
  let after := Route.messages_after (snd (Route.POST w body)) in
  (after = Route.messages body
   \/ exists analysis,
        snd (Route.awaited w (Route.position body)) = Engine.Resolved analysis
        /\ after = Route.augment (Route.position body) analysis (Route.messages body))
  /\ length after = length (Route.messages body)
  /\ map role after = map role (Route.messages body)
  /\ forall j : nat,
       after !! j = Route.messages body !! j
       \/ fst <$> Route.findLast Route.is_user (Route.messages body) = Some j.
Proof.
  intros after. subst after.
  destruct (POST_messages_after w body) as [H|(a & Ha & H)]; rewrite H.
  - repeat split; auto.
  - split; [right; eauto|]. split; [apply augment_length|].
    split; [apply augment_roles | intros j; apply augment_other].
Qed.

(** C8 fails on the code: after the request is handled, its user message
    no longer has the content it came with. *)
Lemma C8_request_message_rewritten :
  Route.messages_after
    (snd (Route.POST Scenario.world
            (Scenario.request [Scenario.coach; Scenario.question] Scenario.start_fen)))
  = [Scenario.coach;
     {| role := user;
        content := "Chess position (FEN): " ++ Scenario.start_fen ++ nl ++
                   "Stockfish analysis:" ++ nl ++
                   "info depth 20 score cp 30 pv e2e4" ++ nl ++
                   "bestmove e2e4 ponder e7e5" ++ nl ++ nl ++ nl ++
                   "User question: What's best here?" |}]
  /\ Route.messages_after
       (snd (Route.POST Scenario.world
               (Scenario.request [Scenario.coach; Scenario.question] Scenario.start_fen)))
     <> Route.messages
          (Scenario.request [Scenario.coach; Scenario.question] Scenario.start_fen).
Proof. vm_compute. split; [reflexivity | discriminate]. Qed.

(** C10: past the two validations, the call to the provider is determined
    by the analysis: none while the engine has not resolved, else exactly
    one, with the fixed model identifier whatever model the request names;
    the model of the request only chooses the key, so two requests that
    differ in their model alone and resolve to the same key are handled
    alike. *)
Theorem C10_provider_model_is_fixed (w : Route.World) (body : Route.ChatRequest) :
  Route.chess_load w (Route.position body) = true ->
  Route.resolve_key w (Route.model body) <> "" ->
  Route.provider_calls (snd (Route.POST w body))
  = match snd (Route.awaited w (Route.position body)) with
    | Engine.Resolved analysis =>
        [{| Route.apiKey := Route.resolve_key w (Route.model body);
            Route.call_model := "claude-sonnet-4-20250514";
            Route.max_tokens := 4096;
            Route.call_messages :=
              Route.anthropicMessages
                (Route.augment (Route.position body) analysis (Route.messages body));
            Route.stream := true |}]
    | _ => []
    end
  /\ forall model' : string,
       Route.resolve_key w model' = Route.resolve_key w (Route.model body) ->
       Route.POST w {| Route.messages := Route.messages body;
                       Route.position := Route.position body;
                       Route.model := model' |}
       = Route.POST w body.
Proof.
  intros Hv Hk. split.
  - rewrite POST_effects, stream_effects by assumption.
    now destruct (snd (Route.awaited w (Route.position body))).
  - intros model' Hsame. unfold Route.POST. cbn [Route.messages Route.position Route.model].
    now rewrite Hsame.
Qed.

Lemma C10_witness :
  Route.chess_load Scenario.gemini_world (Route.position Scenario.gemini_request) = true
  /\ Route.resolve_key Scenario.gemini_world (Route.model Scenario.gemini_request) <> ""
  /\ map Route.call_model
       (Route.provider_calls (snd (Route.POST Scenario.gemini_world Scenario.gemini_request)))
     = ["claude-sonnet-4-20250514"].
Proof.
  assert (H1 : Route.chess_load Scenario.gemini_world
                 (Route.position Scenario.gemini_request) = true) by reflexivity.
  assert (H2 : Route.resolve_key Scenario.gemini_world
                 (Route.model Scenario.gemini_request) <> "") by discriminate.
  split; [exact H1|]. split; [exact H2|].
  rewrite (proj1 (C10_provider_model_is_fixed Scenario.gemini_world
                    Scenario.gemini_request H1 H2)).
  reflexivity.
Defined.

(** ** Client stream consumer *)

Section ClientFacts.

Import Client.

Variable JSON_parse : string -> option json.
Variable ToString : json -> string.

#[local] Abbreviation on_line := (Client.on_line JSON_parse ToString).
#[local] Abbreviation on_chunk := (Client.on_chunk JSON_parse ToString).
#[local] Abbreviation deltas := (Client.deltas JSON_parse ToString).
#[local] Abbreviation read_loop := (Client.read_loop JSON_parse ToString).

Lemma concat_all_app (a b : list string) :
  concat_all (a ++ b)%list = concat_all a ++ concat_all b.
Proof.
  induction a as [|x a IH]; [reflexivity|].
  change (x ++ concat_all (a ++ b) = (x ++ concat_all a) ++ concat_all b).
  now rewrite IH, append_assoc.
Qed.

(** A delta grows the assistant message at the end, and nothing else. *)
Lemma append_content_last (delta text : string) (msgs : list Message) :
  append_content delta (msgs ++ [{| role := assistant; content := text |}])%list
  = (msgs ++ [{| role := assistant; content := (text ++ delta)%string |}])%list.
Proof.
  unfold append_content. rewrite last_snoc. simpl.
  rewrite length_app. simpl.
  replace (length msgs + 1 - 1) with (length msgs + 0) by lia.
  now rewrite insert_app_r.
Qed.

Lemma on_lines_last (lines : list string) (text : string) (msgs : list Message) :
  fold_left (fun m line => on_line line m) lines
    (msgs ++ [{| role := assistant; content := text |}])%list
  = (msgs ++ [{| role := assistant;
                 content := (text ++ concat_all
                               (omap (content_of JSON_parse ToString) lines))%string |}])%list.
Proof.
  revert text. induction lines as [|line lines IH]; intros text; simpl.
  - now rewrite append_empty_r.
  - unfold Client.on_line at 2.
    destruct (content_of JSON_parse ToString line) as [delta|]; simpl.
    + rewrite append_content_last, IH.
      change (concat_all (delta :: ?l)) with (delta ++ concat_all l).
      now rewrite append_assoc.
    + apply IH.
Qed.

Lemma on_chunks_last (chunks : list string) (text : string) (msgs : list Message) :
  fold_left (fun m chunk => on_chunk chunk m) chunks
    (msgs ++ [{| role := assistant; content := text |}])%list
  = (msgs ++ [{| role := assistant;
                 content := (text ++ concat_all (flat_map deltas chunks))%string |}])%list.
Proof.
  revert text. induction chunks as [|chunk chunks IH]; intros text; simpl.
  - now rewrite append_empty_r.
  - unfold Client.on_chunk at 2. rewrite on_lines_last, IH.
    unfold Client.deltas at 2. now rewrite concat_all_app, append_assoc.
Qed.

(** The loop applies the chunks read, in order, and goes on with what
    follows them. *)
Lemma read_loop_chunks (chunks : list string) (tail : list ReadResult)
    (msgs : list Message) :
  read_loop (map RChunk chunks ++ tail)%list msgs
  = read_loop tail (fold_left (fun m chunk => on_chunk chunk m) chunks msgs).
Proof.
  revert msgs. induction chunks as [|chunk chunks IH]; intros msgs; [reflexivity|].
  simpl. apply IH.
Qed.

(** A line that is blank is no data line, so dropping the blank lines
    changes nothing of what a chunk does. *)
Lemma blank_line_no_content (line : string) :
  blank line = true -> content_of JSON_parse ToString line = None.
Proof.
  intros Hb. unfold content_of, startsWith.
  destruct line as [|c line]; [reflexivity|].
  destruct c as [[] [] [] [] [] [] [] []]; try reflexivity.
  destruct line as [|c2 [|c3 line]]; cbv in Hb; discriminate Hb.
Qed.

End ClientFacts.

(** C9: cancelling while the stream is read stops the application of
    frames. The conversation is then exactly the one the chunks read
    before the cancellation have built: the user message and the assistant
    message made of their deltas, whole and in order; nothing read after it
    is applied, nothing is taken back and no message is added. A transport
    failure at the same point leaves the same conversation followed by the
    fallback message. Cancelling before any response leaves the user
    message alone. *)
Theorem C9_cancel_keeps_applied_deltas
    (JSON_parse : string -> option json) (ToString : json -> string)
    (input : string) (st : Client.ChatState)
    (chunks : list string) (rest : list Client.ReadResult) :
  blank input = false ->
  let send := fun reads => Client.handleSend JSON_parse ToString input (Client.Body reads) st in
  let sent := (Client.messages st ++ [{| role := user; content := input |}])%list in
  let applied :=
    (sent ++ [{| role := assistant;
                 content := concat_all
                              (flat_map (Client.deltas JSON_parse ToString) chunks) |}])%list in
  send (map Client.RChunk chunks)
    = {| Client.messages := applied; Client.isLoading := true |}
  /\ send (map Client.RChunk chunks ++ Client.RAbort :: rest)%list
     = {| Client.messages := applied; Client.isLoading := false |}
  /\ send (map Client.RChunk chunks ++ Client.RFail :: rest)%list
     = {| Client.messages := (applied ++ [Client.fallback])%list;
          Client.isLoading := false |}
  /\ Client.handleSend JSON_parse ToString input Client.FetchAbort st
     = {| Client.messages := sent; Client.isLoading := false |}.
Proof.
  intros Hin send sent applied. subst send sent applied.
  unfold Client.handleSend. rewrite Hin.
  rewrite <- (app_nil_r (map Client.RChunk chunks)) at 1.
  rewrite !read_loop_chunks, !on_chunks_last. simpl.
  now repeat split.
Qed.

Lemma C9_witness :
  blank "What's best here?" = false
  /\ Client.messages
       (Client.handleSend Scenario.parse Scenario.to_string "What's best here?"
          (Client.Body
             [Client.RChunk ("data: " ++ Scenario.frame_json "The " ++ nl ++ nl);
              Client.RChunk ("data: " ++ Scenario.frame_json "best " ++ nl ++ nl);
              Client.RAbort;
              Client.RChunk ("data: " ++ Scenario.frame_json "move is e4." ++ nl ++ nl)])
          {| Client.messages := [Scenario.coach]; Client.isLoading := false |})
     = [Scenario.coach; Scenario.question;
        {| role := assistant; content := "The best " |}].
Proof.
  split; [reflexivity|].
  pose proof (C9_cancel_keeps_applied_deltas Scenario.parse Scenario.to_string
                "What's best here?"
                {| Client.messages := [Scenario.coach]; Client.isLoading := false |}
                ["data: " ++ Scenario.frame_json "The " ++ nl ++ nl;
                 "data: " ++ Scenario.frame_json "best " ++ nl ++ nl]
                [Client.RChunk ("data: " ++ Scenario.frame_json "move is e4." ++ nl ++ nl)]
                eq_refl) as (_ & Hcancel & _).
  exact (f_equal Client.messages Hcancel).
Defined.

(** The scenario of the specification, end to end: the frames the
    transcoder sends for three deltas, read by the client one chunk per
    frame, build the assistant message out of the three deltas. *)
Example relay_end_to_end :
  match fst (Route.POST Scenario.world
               (Scenario.request [Scenario.coach; Scenario.question] Scenario.start_fen)) with
  | Some (Route.EventStream body) =>
      Client.handleSend Scenario.parse Scenario.to_string "What's best here?"
        (Client.Body
           (map (fun f => Client.RChunk (Transcoder.encode Scenario.stringify f))
              (Transcoder.enqueued body) ++ [Client.RDone])%list)
        {| Client.messages := [Scenario.coach]; Client.isLoading := false |}
      = {| Client.messages :=
             [Scenario.coach; Scenario.question;
              {| role := assistant; content := "The best move is e4." |}];
           Client.isLoading := false |}
  | _ => False
  end.
Proof. vm_compute. reflexivity. Qed.

(** * Further properties of the engine session *)

Section EngineMore.

Import Engine.

Lemma includes_app_r (needle a b : string) :
  includes needle b = true -> includes needle (a ++ b) = true.
Proof.
  intros Hb. induction a as [|c a IH]; [exact Hb|].
  change (includes needle (String c (a ++ b)) = true).
  simpl. rewrite IH. apply orb_true_r.
Qed.

Lemma settle_resolved (acc : string) (evs : list ProcEvent) (t : string) :
  settle acc evs = Resolved t -> includes "bestmove" t = true.
Proof.
  revert acc. induction evs as [|[d|d|e] evs IH]; intros acc H; simpl in H.
  - discriminate.
  - destruct (includes "bestmove" d) eqn:Hd; [|eauto].
    inversion H; subst. now apply includes_app_r.
  - eauto.
  - discriminate.
Qed.

Lemma settle_pending (acc : string) (evs : list ProcEvent) :
  match settle acc evs with Pending => true | _ => false end = forallb quiet evs.
Proof.
  revert acc. induction evs as [|[d|d|e] evs IH]; intros acc; simpl; auto.
  destruct (includes "bestmove" d); simpl; auto.
Qed.

Lemma emit_stderr (d : string) (s : Session) : emit (StderrData d) s = s.
Proof.
  destruct s as [l i]. unfold emit. simpl. f_equal.
  induction l as [|c l IH]; simpl; [reflexivity | now rewrite IH].
Qed.

Lemma run_listeners_emit (evs : list ProcEvent) (s : Session) :
  length (listeners (run s (map AEmit evs))) = length (listeners s).
Proof.
  revert s. induction evs as [|ev evs IH]; intros s; [reflexivity|].
  change (length (listeners (run (emit ev s) (map AEmit evs))) = length (listeners s)).
  rewrite IH. simpl. apply length_map.
Qed.

End EngineMore.

(** X1: the text a call resolves with contains the sentinel, whatever the
    session did before the call and whatever else happens after it. *)
Theorem X1_resolved_text_contains_sentinel
    (s : Engine.Session) (fen : string) (depth : N) (acts : list Engine.Action)
    (t : string) :
  Engine.promise <$>
    Engine.listeners (Engine.run (Engine.getStockfishAnalysis fen depth s) acts)
      !! Engine.handle s
  = Some (Engine.Resolved t) ->
  includes "bestmove" t = true.
Proof.
  rewrite call_settles. intros H. inversion H as [Ht].
  now apply settle_resolved in Ht.
Qed.

Lemma X1_witness :
  includes "bestmove" ("info depth 1 " ++ "bestmove e2e4") = true.
Proof.
  apply (X1_resolved_text_contains_sentinel Engine.init Scenario.start_fen 20
           [Engine.AEmit (Engine.StdoutData "info depth 1 ");
            Engine.AEmit (Engine.StdoutData "bestmove e2e4")]).
  reflexivity.
Defined.

(** X2: a call is still in flight exactly when every event since it was
    made is quiet: no process error, and no single chunk of output that
    contains the sentinel. A sentinel that arrives split over two chunks
    does not settle the call. *)
Theorem X2_in_flight_until_one_chunk_has_sentinel
    (s : Engine.Session) (fen : string) (depth : N) (acts : list Engine.Action) :
  Engine.in_flight (Engine.run (Engine.getStockfishAnalysis fen depth s) acts)
    (Engine.handle s)
  = forallb Engine.quiet (Engine.events_of acts).
Proof.
  pose proof (call_settles s fen depth acts) as H.
  unfold Engine.in_flight.
  destruct (Engine.listeners _ !! Engine.handle s) as [[a p]|]; [|discriminate].
  simpl in H. inversion H as [Hp]. rewrite <- settle_pending with (acc := "").
  now destruct (Engine.settle "" (Engine.events_of acts)).
Qed.

(** X3: the session only grows. After any actions the input of the process
    holds what it held, then the two commands of each call in the order of
    the calls; and one more call is registered per call made: no listener
    is ever removed. *)
Theorem X3_commands_in_call_order (s : Engine.Session) (acts : list Engine.Action) :
  Engine.stdin (Engine.run s acts) = (Engine.stdin s ++ Engine.commands acts)%list
  /\ length (Engine.listeners (Engine.run s acts))
     = length (Engine.listeners s) + length (List.filter Engine.is_call acts).
Proof.
  revert s. induction acts as [|[fen depth|ev] acts IH]; intros s.
  - simpl. now rewrite app_nil_r, Nat.add_0_r.
  - destruct (IH (Engine.getStockfishAnalysis fen depth s)) as [H1 H2].
    change (Engine.run s (Engine.ACall fen depth :: acts))
      with (Engine.run (Engine.getStockfishAnalysis fen depth s) acts).
    rewrite H1, H2. simpl. rewrite length_app, <- app_assoc. simpl. split; [reflexivity | lia].
  - destruct (IH (Engine.emit ev s)) as [H1 H2].
    change (Engine.run s (Engine.AEmit ev :: acts))
      with (Engine.run (Engine.emit ev s) acts).
    rewrite H1, H2. simpl. now rewrite length_map.
Qed.

(** X4: what the engine writes on its error stream changes nothing: the
    session after any actions is the session after the same actions with
    the error-stream output left out. *)
Theorem X4_stderr_is_ignored (s : Engine.Session) (acts : list Engine.Action) :
  Engine.run s (List.filter Engine.not_stderr acts) = Engine.run s acts.
Proof.
  revert s. induction acts as [|[fen depth|[d|d|e]] acts IH]; intros s;
    try reflexivity; simpl; try apply IH.
  change (Engine.run s (List.filter Engine.not_stderr acts)
          = Engine.run (Engine.emit (Engine.StderrData d) s) acts).
  rewrite emit_stderr. apply IH.
Qed.

(** * Further properties of the route *)

Section RouteMore.

Import Route.

Lemma POST_no_key (w : World) (body : ChatRequest) :
  chess_load w (position body) = true ->
  resolve_key w (model body) = "" ->
  POST w body
  = (Some (JsonResponse 400 "API key not found for selected model"),
     {| messages_after := messages body; engine_after := engine w;
        provider_calls := [] |}).
Proof. intros Hv Hk. unfold POST. now rewrite Hv, Hk. Qed.

(** The result of the provider call, by the outcome of the analysis. *)
Lemma stream_outcome (w : World) (msgs : list Message) (position key : string) :
  fst (streamAnthropicResponse w msgs position key)
  = match snd (awaited w position) with
    | Engine.Pending => Never
    | Engine.Rejected e => Throws e
    | Engine.Resolved analysis =>
        match create w {| apiKey := key; call_model := "claude-sonnet-4-20250514";
                          max_tokens := 4096;
                          call_messages :=
                            anthropicMessages (augment position analysis msgs);
                          stream := true |} with
        | CreateStream chunks => Returns (Transcoder.pipeThrough chunks)
        | CreateThrows message => Throws ("Anthropic API error: " ++ message)
        end
    end.
Proof.
  unfold streamAnthropicResponse. destruct (awaited w position) as [s p]. simpl.
  destruct p; try reflexivity. now destruct (create w _).
Qed.

Lemma POST_response (w : World) (body : ChatRequest) :
  chess_load w (position body) = true ->
  resolve_key w (model body) <> "" ->
  fst (POST w body)
  = match fst (streamAnthropicResponse w (messages body) (position body)
                 (resolve_key w (model body))) with
    | Returns response => Some (EventStream response)
    | Throws _ => Some (JsonResponse 500 "Internal server error")
    | Never => None
    end.
Proof.
  intros Hv Hk. unfold POST. rewrite Hv. simpl.
  apply String.eqb_neq in Hk. rewrite Hk.
  now destruct (streamAnthropicResponse _ _ _ _) as [[r|m|] eff].
Qed.

Lemma POST_engine_after (w : World) (body : ChatRequest) :
  chess_load w (position body) = true ->
  resolve_key w (model body) <> "" ->
  engine_after (snd (POST w body)) = fst (awaited w (position body)).
Proof.
  intros Hv Hk. rewrite POST_effects, stream_effects by assumption.
  now destruct (snd (awaited w (position body))).
Qed.

(** Writing over the element [findLast] found, with an element that
    passes the test, leaves it the one found. *)
Lemma findLast_insert {A : Type} (p : A -> bool) (l : list A) (i : nat) (x y : A) :
  findLast p l = Some (i, x) -> p y = true ->
  findLast p (<[i := y]> l) = Some (i, y).
Proof.
  revert i. induction l as [|a l IH]; intros i H Hy; simpl in H; [discriminate|].
  destruct (findLast p l) as [[k z]|] eqn:Hl.
  - inversion H; subst. simpl. now rewrite (IH k eq_refl Hy).
  - destruct (p a); [|discriminate]. inversion H; subst. simpl. now rewrite Hl, Hy.
Qed.

End RouteMore.

(** X5: a request for a model that resolves to no key (a model other
    than the two known ones, or the second one with no key or an empty key
    configured) is answered with status 400 and the message that the key
    was not found, before any work: the engine session and the messages of
    the request are as they were and the provider is not called. *)
Theorem X5_missing_key_rejected_before_any_call
    (w : Route.World) (body : Route.ChatRequest) :
  Route.chess_load w (Route.position body) = true ->
  (Route.model body <> "claude-sonnet-4-20250514"
   /\ Route.model body <> "gemini-2.5-pro")
  \/ (Route.model body = "gemini-2.5-pro"
      /\ (Route.GEMINI_API_KEY w = None \/ Route.GEMINI_API_KEY w = Some "")) ->
  Route.POST w body
  = (Some (Route.JsonResponse 400 "API key not found for selected model"),
     {| Route.messages_after := Route.messages body;
        Route.engine_after := Route.engine w;
        Route.provider_calls := [] |}).
Proof.
  intros Hv Hm. apply POST_no_key; [assumption|]. unfold Route.resolve_key.
  destruct Hm as [[H1 H2]|[H1 H2]].
  - apply String.eqb_neq in H1, H2. now rewrite H1, H2.
  - rewrite H1. simpl. now destruct H2 as [-> | ->].
Qed.

Lemma X5_witness :
  Route.POST Scenario.world
    {| Route.messages := [Scenario.coach; Scenario.question];
       Route.position := Scenario.start_fen; Route.model := "gpt-4o" |}
  = (Some (Route.JsonResponse 400 "API key not found for selected model"),
     {| Route.messages_after := [Scenario.coach; Scenario.question];
        Route.engine_after := Engine.init;
        Route.provider_calls := [] |})
  /\ fst (Route.POST Scenario.world Scenario.gemini_request)
     = Some (Route.JsonResponse 400 "API key not found for selected model").
Proof.
  split.
  - apply (X5_missing_key_rejected_before_any_call Scenario.world
             {| Route.messages := [Scenario.coach; Scenario.question];
                Route.position := Scenario.start_fen; Route.model := "gpt-4o" |});
      [reflexivity | left; split; discriminate].
  - rewrite (X5_missing_key_rejected_before_any_call Scenario.world
               Scenario.gemini_request); [reflexivity | reflexivity |].
    right. split; [reflexivity | left; reflexivity].
Defined.

(** X6: what a request that passes both validations is answered with is
    decided by the engine and then the provider. While every event of the
    engine is quiet there is no response at all; a process error gives the
    500 response; once a chunk with the sentinel has come, the response is
    the event stream transcoded from the provider's chunks, or the 500
    response when the call to the provider throws. It is never a 400. *)
Theorem X6_response_after_validation (w : Route.World) (body : Route.ChatRequest) :
  Route.chess_load w (Route.position body) = true ->
  Route.resolve_key w (Route.model body) <> "" ->
  fst (Route.POST w body)
  = match Engine.settle "" (Route.engine_events w) with
    | Engine.Pending => None
    | Engine.Rejected _ => Some (Route.JsonResponse 500 "Internal server error")
    | Engine.Resolved analysis =>
        match Route.create w
                {| Route.apiKey := Route.resolve_key w (Route.model body);
                   Route.call_model := "claude-sonnet-4-20250514";
                   Route.max_tokens := 4096;
                   Route.call_messages :=
                     Route.anthropicMessages
                       (Route.augment (Route.position body) analysis
                          (Route.messages body));
                   Route.stream := true |} with
        | Route.CreateStream chunks =>
            Some (Route.EventStream (Transcoder.pipeThrough chunks))
        | Route.CreateThrows _ =>
            Some (Route.JsonResponse 500 "Internal server error")
        end
    end.
Proof.
  intros Hv Hk. rewrite POST_response, stream_outcome, awaited_settle by assumption.
  destruct (Engine.settle "" (Route.engine_events w)); try reflexivity.
  now destruct (Route.create w _).
Qed.

Lemma X6_witness :
  fst (Route.POST Scenario.silent_world
         (Scenario.request [Scenario.question] Scenario.start_fen)) = None
  /\ fst (Route.POST Scenario.crashed_world
            (Scenario.request [Scenario.question] Scenario.start_fen))
     = Some (Route.JsonResponse 500 "Internal server error")
  /\ fst (Route.POST Scenario.refusing_world
            (Scenario.request [Scenario.question] Scenario.start_fen))
     = Some (Route.JsonResponse 500 "Internal server error").
Proof.
  split; [|split].
  - rewrite (X6_response_after_validation Scenario.silent_world
               (Scenario.request [Scenario.question] Scenario.start_fen));
      [reflexivity | reflexivity | discriminate].
  - rewrite (X6_response_after_validation Scenario.crashed_world
               (Scenario.request [Scenario.question] Scenario.start_fen));
      [reflexivity | reflexivity | discriminate].
  - rewrite (X6_response_after_validation Scenario.refusing_world
               (Scenario.request [Scenario.question] Scenario.start_fen));
      [reflexivity | reflexivity | discriminate].
Defined.

(** X7: a request that passes both validations writes exactly two commands
    to the engine, after what its input held: the position of the request
    and a search to depth 20; this holds whatever the engine and the
    provider do next, and registers one more call on the session. *)
Theorem X7_validated_request_writes_position_and_depth_20
    (w : Route.World) (body : Route.ChatRequest) :
  Route.chess_load w (Route.position body) = true ->
  Route.resolve_key w (Route.model body) <> "" ->
  Engine.stdin (Route.engine_after (snd (Route.POST w body)))
  = (Engine.stdin (Route.engine w)
     ++ [("position fen " ++ Route.position body ++ nl)%string;
         ("go depth 20" ++ nl)%string])%list
  /\ length (Engine.listeners (Route.engine_after (snd (Route.POST w body))))
     = S (length (Engine.listeners (Route.engine w))).
Proof.
  intros Hv Hk. rewrite POST_engine_after by assumption.
  split; [apply awaited_stdin|].
  unfold Route.awaited. cbn [fst]. rewrite run_listeners_emit. simpl.
  rewrite length_app. simpl. lia.
Qed.

Lemma X7_witness :
  Engine.stdin
    (Route.engine_after
       (snd (Route.POST Scenario.silent_world
               (Scenario.request [Scenario.question] Scenario.start_fen))))
  = [("position fen " ++ Scenario.start_fen ++ nl)%string; ("go depth 20" ++ nl)%string].
Proof.
  apply (X7_validated_request_writes_position_and_depth_20 Scenario.silent_world
           (Scenario.request [Scenario.question] Scenario.start_fen));
    [reflexivity | discriminate].
Defined.

(** X8: augmentation is not idempotent. Augmenting a conversation that
    was augmented already rewrites the same user turn again, and the first
    augmented content, with its position and analysis, becomes the question
    of the second. *)
Theorem X8_augment_twice_nests
    (p1 a1 p2 a2 : string) (msgs : list Message) (i : nat) (m : Message) :
  Route.findLast Route.is_user msgs = Some (i, m) ->
  Route.augment p2 a2 (Route.augment p1 a1 msgs)
  = <[i := {| role := user;
              content := Route.augmented p2 a2 (Route.augmented p1 a1 (content m)) |}]>
      msgs.
Proof.
  intros Hf. destruct (findLast_Some _ _ _ _ Hf) as (_ & Hu & _).
  apply is_user_true in Hu.
  unfold Route.augment at 2. rewrite Hf, Hu.
  unfold Route.augment.
  rewrite (findLast_insert _ _ _ _ _ Hf) by reflexivity.
  simpl. apply list_insert_insert_eq.
Qed.

Lemma X8_witness :
  Route.augment "8/8/8/8/8/8/8/K6k w - - 0 1" "bestmove a1a2"
    (Route.augment Scenario.start_fen "bestmove e2e4" [Scenario.coach; Scenario.question])
  = [Scenario.coach;
     {| role := user;
        content :=
          Route.augmented "8/8/8/8/8/8/8/K6k w - - 0 1" "bestmove a1a2"
            (Route.augmented Scenario.start_fen "bestmove e2e4" "What's best here?") |}].
Proof.
  apply (X8_augment_twice_nests Scenario.start_fen "bestmove e2e4"
           "8/8/8/8/8/8/8/K6k w - - 0 1" "bestmove a1a2"
           [Scenario.coach; Scenario.question] 1 Scenario.question).
  reflexivity.
Defined.

(** * Further properties of the transcoder *)

Section TranscoderMore.

Import Transcoder.

(** A text delta never throws; it gives one content frame with its text,
    or nothing when the text is empty. *)
Lemma delta_text_process (c : Chunk) (t : string) :
  delta_text c = Some t ->
  process c = inr (if String.eqb t "" then None else Some (ContentFrame (JStr t))).
Proof.
  destruct c as [|data]; [discriminate|].
  unfold delta_text, process.
  destruct data; try discriminate.
  destruct (prop "type" (JObj fields)) as [[| | |ty| |]|] eqn:Hty; try discriminate.
  simpl. destruct (String.eqb ty "content_block_delta") eqn:Hd; [|discriminate].
  apply String.eqb_eq in Hd. subst ty. cbn [prop].
  destruct (opt_prop "text" (assoc "delta" fields)) as [[| | |s| |]|];
    try discriminate.
  intros H. inversion H; subst. simpl. now destruct t.
Qed.

Lemma deltas_never_fail (chunks : list Chunk) (ts : list string) :
  map delta_text chunks = map Some ts ->
  failure chunks = None /\ before_throw chunks = chunks
  /\ flat_map frames_of chunks
     = map (fun t => ContentFrame (JStr t))
         (List.filter (fun t => negb (String.eqb t "")) ts).
Proof.
  revert ts. induction chunks as [|c chunks IH]; intros [|t ts] H; try discriminate.
  - now repeat split.
  - simpl in H. inversion H as [[Hc Hrest]].
    destruct (IH ts Hrest) as (Hf & Hb & Hfr).
    pose proof (delta_text_process c t Hc) as Hp.
    simpl. unfold throws, frames_of at 1. rewrite Hp, Hf, Hb, Hfr.
    repeat split. now destruct (String.eqb t "").
Qed.

Lemma before_throw_app (pre post : list Chunk) :
  before_throw (pre ++ post)
  = (before_throw pre ++
     match failure pre with None => before_throw post | Some _ => [] end)%list.
Proof.
  induction pre as [|c pre IH]; [reflexivity|].
  simpl. unfold throws. destruct (process c); [reflexivity|]. simpl. now rewrite IH.
Qed.

(** The frames of chunks are content frames. *)
Lemma frames_of_kept (chunks : list Chunk) :
  List.filter (fun f => negb (is_termination f)) (flat_map frames_of chunks)
  = flat_map frames_of chunks.
Proof.
  induction chunks as [|c rest IH]; [reflexivity|].
  simpl. rewrite List.filter_app, IH. f_equal.
  unfold frames_of, process.
  destruct c as [|data]; [reflexivity|].
  destruct data; try reflexivity;
    repeat match goal with
           | |- context [if ?b then _ else _] => destruct b
           | |- context [match ?o with Some _ => _ | None => _ end] => destruct o
           end; reflexivity.
Qed.

End TranscoderMore.

(** X9: a stream of text deltas that ends by itself is transcoded to one
    content frame per delta with text, in the order of the deltas and
    carrying the text unchanged, followed by the termination frame; a
    delta whose text is empty gives no frame. *)
Theorem X9_text_deltas_become_content_frames
    (chunks : list Transcoder.Chunk) (ts : list string) :
  map Transcoder.delta_text chunks = map Some ts ->
  Transcoder.pipeThrough chunks
  = {| Transcoder.enqueued :=
         (map (fun t => Transcoder.ContentFrame (JStr t))
            (List.filter (fun t => negb (String.eqb t "")) ts)
          ++ [Transcoder.TerminationFrame])%list;
       Transcoder.status := Transcoder.Closed |}.
Proof.
  intros H. destruct (deltas_never_fail chunks ts H) as (Hf & Hb & Hfr).
  now rewrite pipeThrough_spec, Hf, Hb, Hfr.
Qed.

Lemma X9_witness :
  Transcoder.pipeThrough
    [Scenario.text_delta "The "; Scenario.text_delta ""; Scenario.text_delta "best "]
  = {| Transcoder.enqueued :=
         [Transcoder.ContentFrame (JStr "The "); Transcoder.ContentFrame (JStr "best ");
          Transcoder.TerminationFrame];
       Transcoder.status := Transcoder.Closed |}.
Proof.
  apply (X9_text_deltas_become_content_frames
           [Scenario.text_delta "The "; Scenario.text_delta ""; Scenario.text_delta "best "]
           ["The "; ""; "best "]).
  reflexivity.
Defined.

(** X10: later chunks never take back or reorder what earlier chunks gave.
    The content frames enqueued for a sequence of chunks are the first
    frames enqueued for any longer sequence that starts with it, whether
    that one ends well or in error. *)
Theorem X10_content_frames_are_never_retracted (pre post : list Transcoder.Chunk) :
  List.filter (fun f => negb (Transcoder.is_termination f))
    (Transcoder.enqueued (Transcoder.pipeThrough pre))
  `prefix_of` Transcoder.enqueued (Transcoder.pipeThrough (pre ++ post)).
Proof.
  rewrite !pipeThrough_spec. cbn [Transcoder.enqueued].
  rewrite List.filter_app, frames_of_kept, before_throw_app, flat_map_app.
  replace (List.filter (fun f => negb (Transcoder.is_termination f))
             match Transcoder.failure pre with
             | Some _ => []
             | None => [Transcoder.TerminationFrame]
             end) with (@nil Transcoder.Frame)
    by now destruct (Transcoder.failure pre).
  rewrite app_nil_r, <- app_assoc. apply prefix_app_r. reflexivity.
Qed.

(** * Further properties of the client stream consumer *)

Section ClientMore.

Import Client.

Variable JSON_parse : string -> option json.
Variable ToString : json -> string.

(** A delta is dropped when the last message is not the assistant's. *)
Lemma append_content_other (delta : string) (msgs : list Message) (m : Message) :
  last msgs = Some m -> role m <> assistant -> append_content delta msgs = msgs.
Proof.
  intros Hl Hr. unfold append_content. rewrite Hl.
  destruct (role m); simpl; congruence.
Qed.

Lemma on_chunk_other (chunk : string) (msgs : list Message) (m : Message) :
  last msgs = Some m -> role m <> assistant ->
  on_chunk JSON_parse ToString chunk msgs = msgs.
Proof.
  intros Hl Hr. unfold on_chunk.
  induction (lines_of chunk) as [|line lines IH]; [reflexivity|].
  simpl. unfold on_line at 2.
  destruct (content_of JSON_parse ToString line); [|exact IH].
  now rewrite (append_content_other _ _ _ Hl Hr).
Qed.

(** One chunk applied to a conversation that ends with the assistant's
    message. *)
Lemma on_chunk_last (chunk text : string) (msgs : list Message) :
  on_chunk JSON_parse ToString chunk (msgs ++ [{| role := assistant; content := text |}])
  = (msgs ++ [{| role := assistant;
                 content := (text ++ concat_all (deltas JSON_parse ToString chunk))%string |}])%list.
Proof. apply on_lines_last. Qed.

(** The loop leaves the conversation as it was up to the assistant's
    message, which it grows. *)
Lemma read_loop_shape (reads : list ReadResult) (text : string) (msgs : list Message) :
  exists text',
    fst (read_loop JSON_parse ToString reads
           (msgs ++ [{| role := assistant; content := text |}]))
    = (msgs ++ [{| role := assistant; content := text' |}])%list.
Proof.
  revert text. induction reads as [|[value| | |] reads IH]; intros text;
    try (exists text; reflexivity).
  simpl. rewrite on_chunk_last. apply IH.
Qed.

End ClientMore.

(** X12: whatever the fetch and the reads come to, a send with an input
    that is not blank leaves the earlier messages as they were and adds the
    user message with the input as typed, then at most one assistant
    message, then at most one fallback message. *)
Theorem X12_send_only_appends
    (JSON_parse : string -> option json) (ToString : json -> string)
    (input : string) (fetched : Client.FetchResult) (st : Client.ChatState) :
  blank input = false ->
  exists tail : list Message,
    Client.messages (Client.handleSend JSON_parse ToString input fetched st)
    = (Client.messages st ++ {| role := user; content := input |} :: tail)%list
    /\ (tail = []
        \/ tail = [Client.fallback]
        \/ exists text,
             tail = [{| role := assistant; content := text |}]
             \/ tail = [{| role := assistant; content := text |}; Client.fallback]).
Proof.
  intros Hin. unfold Client.handleSend. rewrite Hin.
  destruct fetched as [| | | |reads].
  - exists []. simpl. split; [reflexivity | now left].
  - exists [Client.fallback]. simpl. rewrite <- app_assoc. split; [reflexivity | now right; left].
  - exists [Client.fallback]. simpl. rewrite <- app_assoc. split; [reflexivity | now right; left].
  - exists [Client.fallback]. simpl. rewrite <- app_assoc. split; [reflexivity | now right; left].
  - destruct (read_loop_shape JSON_parse ToString reads ""
                (Client.messages st ++ [{| role := user; content := input |}]))
      as [text Ht].
    destruct (Client.read_loop JSON_parse ToString reads _) as [msgs ending].
    simpl in Ht. subst msgs.
    destruct ending; simpl; rewrite <- ?app_assoc; simpl.
    + exists [{| role := assistant; content := text |}]. split; [reflexivity|].
      right; right. exists text. now left.
    + exists [{| role := assistant; content := text |}]. split; [reflexivity|].
      right; right. exists text. now left.
    + exists [{| role := assistant; content := text |}; Client.fallback].
      split; [reflexivity|]. right; right. exists text. now right.
    + exists [{| role := assistant; content := text |}]. split; [reflexivity|].
      right; right. exists text. now left.
Qed.

Lemma X12_witness :
  exists tail : list Message,
    Client.messages
      (Client.handleSend Scenario.parse Scenario.to_string "What's best here?"
         Client.NotOk {| Client.messages := [Scenario.coach]; Client.isLoading := false |})
    = ([Scenario.coach] ++ Scenario.question :: tail)%list
    /\ (tail = []
        \/ tail = [Client.fallback]
        \/ exists text,
             tail = [{| role := assistant; content := text |}]
             \/ tail = [{| role := assistant; content := text |}; Client.fallback]).
Proof.
  apply (X12_send_only_appends Scenario.parse Scenario.to_string "What's best here?"
           Client.NotOk {| Client.messages := [Scenario.coach]; Client.isLoading := false |}).
  reflexivity.
Defined.

(** X13: a chunk none of whose lines starts with the data prefix (a
    comment, an event name, blank lines) changes nothing. *)
Theorem X13_lines_without_data_prefix_are_ignored
    (JSON_parse : string -> option json) (ToString : json -> string)
    (chunk : string) (msgs : list Message) :
  forallb (fun line => negb (startsWith "data: " line)) (split_lines chunk) = true ->
  Client.on_chunk JSON_parse ToString chunk msgs = msgs.
Proof.
  intros H. unfold Client.on_chunk, Client.lines_of.
  induction (split_lines chunk) as [|line lines IH]; [reflexivity|].
  simpl in H. apply andb_prop in H. destruct H as [Hl Hrest].
  simpl. destruct (negb (blank line)); [|now apply IH].
  simpl. unfold Client.on_line at 2, Client.content_of.
  apply negb_true_iff in Hl. rewrite Hl. now apply IH.
Qed.

Lemma X13_witness :
  Client.on_chunk Scenario.parse Scenario.to_string
    (": keep-alive" ++ nl ++ "event: ping" ++ nl ++ nl)
    [Scenario.coach; {| role := assistant; content := "The " |}]
  = [Scenario.coach; {| role := assistant; content := "The " |}].
Proof.
  apply (X13_lines_without_data_prefix_are_ignored Scenario.parse Scenario.to_string).
  reflexivity.
Defined.

(** X14: frames are applied to the last message only if it is the
    assistant's. While the conversation ends with another message, a chunk
    changes nothing, whatever deltas it carries. *)
Theorem X14_deltas_dropped_unless_last_is_assistant
    (JSON_parse : string -> option json) (ToString : json -> string)
    (chunk : string) (msgs : list Message) (m : Message) :
  last msgs = Some m -> role m <> assistant ->
  Client.on_chunk JSON_parse ToString chunk msgs = msgs.
Proof. apply on_chunk_other. Qed.

Lemma X14_witness :
  Client.on_chunk Scenario.parse Scenario.to_string
    ("data: " ++ Scenario.frame_json "The " ++ nl ++ nl)
    [Scenario.coach; Scenario.question]
  = [Scenario.coach; Scenario.question].
Proof.
  apply (X14_deltas_dropped_unless_last_is_assistant Scenario.parse Scenario.to_string
           ("data: " ++ Scenario.frame_json "The " ++ nl ++ nl)
           [Scenario.coach; Scenario.question] Scenario.question);
    [reflexivity | discriminate].
Defined.

(** X15: applying a chunk to a conversation that is not empty never adds,
    removes or reorders messages and never changes a role; every message
    but the last is left as it was. *)
Theorem X15_chunk_touches_only_last_content
    (JSON_parse : string -> option json) (ToString : json -> string)
    (chunk : string) (msgs : list Message) :
  msgs <> [] ->
  let msgs' := Client.on_chunk JSON_parse ToString chunk msgs in
  length msgs' = length msgs
  /\ map role msgs' = map role msgs
  /\ take (length msgs - 1) msgs' = take (length msgs - 1) msgs.
Proof.
  intros Hne msgs'. subst msgs'.
  destruct (last msgs) as [m|] eqn:Hl; [|apply last_None in Hl; contradiction].
  destruct m as [[] c].
  - now rewrite (on_chunk_other JSON_parse ToString chunk msgs _ Hl).
  - apply last_Some in Hl. destruct Hl as [l ->].
    rewrite on_chunk_last, !length_app, !map_app. simpl.
    replace (length l + 1 - 1) with (length l) by lia.
    now rewrite !take_app_length.
  - now rewrite (on_chunk_other JSON_parse ToString chunk msgs _ Hl).
Qed.

Lemma X15_witness :
  length (Client.on_chunk Scenario.parse Scenario.to_string
            ("data: " ++ Scenario.frame_json "best " ++ nl ++ nl)
            [Scenario.coach; Scenario.question; {| role := assistant; content := "The " |}])
  = 3.
Proof.
  apply (X15_chunk_touches_only_last_content Scenario.parse Scenario.to_string
           ("data: " ++ Scenario.frame_json "best " ++ nl ++ nl)
           [Scenario.coach; Scenario.question; {| role := assistant; content := "The " |}]).
  discriminate.
Defined.

(** * The wire: what the transcoder sends is what the client rebuilds *)

Section WireFacts.

Import Transcoder Client Wire.

Variable JSON_parse : string -> option json.
Variable ToString : json -> string.
Variable stringify : json -> string.

Lemma split_lines_line (a rest : string) :
  has_lf a = false ->
  split_lines (a ++ String "010"%char rest) = a :: split_lines rest.
Proof.
  induction a as [|c a IH]; intros Ha; [reflexivity|].
  simpl in Ha. apply orb_false_iff in Ha. destruct Ha as [Hc Ha].
  change (split_lines (String c (a ++ String "010"%char rest)) = String c a :: split_lines rest).
  simpl. rewrite Hc, (IH Ha). reflexivity.
Qed.

(** A data line followed by the blank line, then more. *)
Lemma lines_of_data (x rest : string) :
  has_lf x = false ->
  lines_of (("data: " ++ x) ++ nl ++ nl ++ rest) = ("data: " ++ x)%string :: lines_of rest.
Proof.
  intros Hx. unfold lines_of.
  change (nl ++ nl ++ rest) with (String "010"%char (String "010"%char rest)).
  rewrite split_lines_line by exact Hx.
  change (split_lines (String "010"%char rest)) with (EmptyString :: split_lines rest).
  reflexivity.
Qed.

Lemma content_of_data (x : string) :
  content_of JSON_parse ToString ("data: " ++ x)
  = if String.eqb x "[DONE]" then None
    else match JSON_parse x with
         | None => None
         | Some JNull => None
         | Some parsed =>
             let found := opt_prop "content"
                            (opt_prop "delta" (opt_index0 (prop "choices" parsed))) in
             match found with
             | Some v => if truthy found then Some (text_of ToString v) else None
             | None => None
             end
         end.
Proof.
  unfold content_of, startsWith.
  change ("data: " ++ x)
    with (String "d" (String "a" (String "t" (String "a" (String ":" (String " " x)))))).
  assert (H : String.prefix "data: "
                (String "d" (String "a" (String "t" (String "a" (String ":" (String " " x))))))
              = true) by (simpl; now destruct x).
  rewrite H. reflexivity.
Qed.

Lemma content_of_frame (t : string) :
  faithful JSON_parse stringify t -> t <> "" ->
  content_of JSON_parse ToString ("data: " ++ stringify (sseData (JStr t))) = Some t.
Proof.
  intros (Hp & _ & Hd) Ht. rewrite content_of_data.
  apply String.eqb_neq in Hd. rewrite Hd, Hp. simpl.
  apply String.eqb_neq in Ht. now rewrite Ht.
Qed.

Lemma omap_cons_Some {A B : Type} (f : A -> option B) (x : A) (y : B) (l : list A) :
  f x = Some y -> omap f (x :: l) = y :: omap f l.
Proof. intros H. simpl. now rewrite H. Qed.

Lemma omap_cons_None {A B : Type} (f : A -> option B) (x : A) (l : list A) :
  f x = None -> omap f (x :: l) = omap f l.
Proof. intros H. simpl. now rewrite H. Qed.

Lemma deltas_batch (frames : list Frame) :
  Forall (sendable JSON_parse stringify) frames ->
  deltas JSON_parse ToString (batch stringify frames) = flat_map carried frames.
Proof.
  induction 1 as [|f frames Hf _ IH]; [reflexivity|].
  change (batch stringify (f :: frames))
    with (encode stringify f ++ batch stringify frames).
  destruct f as [[| | |t| |]|]; try contradiction.
  - destruct Hf as [Hf Ht]. unfold encode.
    replace (("data: " ++ stringify (sseData (JStr t)) ++ nl ++ nl) ++ batch stringify frames)
      with (("data: " ++ stringify (sseData (JStr t))) ++ nl ++ nl ++ batch stringify frames)
      by now rewrite !append_assoc.
    unfold deltas. rewrite lines_of_data by apply Hf.
    rewrite (omap_cons_Some _ _ t) by now apply content_of_frame.
    fold (deltas JSON_parse ToString (batch stringify frames)). now rewrite IH.
  - unfold encode.
    replace (("data: [DONE]" ++ nl ++ nl) ++ batch stringify frames)
      with (("data: " ++ "[DONE]") ++ nl ++ nl ++ batch stringify frames)
      by now rewrite !append_assoc.
    unfold deltas. rewrite lines_of_data by reflexivity.
    rewrite omap_cons_None by (rewrite content_of_data; reflexivity).
    exact IH.
Qed.

Lemma deltas_batches (groups : list (list Frame)) :
  Forall (sendable JSON_parse stringify) (concat groups) ->
  flat_map (deltas JSON_parse ToString) (map (batch stringify) groups)
  = flat_map carried (concat groups).
Proof.
  induction groups as [|g groups IH]; intros H; [reflexivity|].
  simpl in *. apply Forall_app in H. destruct H as [Hg Hrest].
  now rewrite deltas_batch, flat_map_app, IH.
Qed.

Lemma carried_content (ts : list string) :
  flat_map carried (map (fun t => ContentFrame (JStr t)) ts ++ [TerminationFrame]) = ts.
Proof. induction ts as [|t ts IH]; simpl; [reflexivity | now rewrite IH]. Qed.

Lemma concat_all_nonempty (ts : list string) :
  concat_all (List.filter (fun t => negb (String.eqb t "")) ts) = concat_all ts.
Proof.
  induction ts as [|t ts IH]; [reflexivity|].
  simpl. destruct (String.eqb t "") eqn:Ht; simpl.
  - apply String.eqb_eq in Ht. subst t. exact IH.
  - change (t ++ concat_all (List.filter (fun t => negb (String.eqb t "")) ts)
            = t ++ concat_all ts). now rewrite IH.
Qed.

Lemma sendable_frames (ts : list string) :
  Forall (faithful JSON_parse stringify) ts ->
  Forall (sendable JSON_parse stringify)
    (map (fun t => ContentFrame (JStr t))
       (List.filter (fun t => negb (String.eqb t "")) ts) ++ [TerminationFrame]).
Proof.
  intros H. apply Forall_app. split; [|repeat constructor].
  induction H as [|t ts Ht _ IH]; [constructor|].
  simpl. destruct (String.eqb t "") eqn:He; simpl; [exact IH|].
  constructor; [|exact IH]. split; [exact Ht | now apply String.eqb_neq].
Qed.

End WireFacts.

(** X11: the relay is lossless for text. For a provider stream of text
    deltas that ends by itself, however the frames the transcoder sends
    are batched, whole, into the reads of the client, a send ends with the
    user message followed by one assistant message whose content is the
    texts of the deltas one after the other, and is no longer loading.
    This holds when writing the data of each frame as JSON and parsing it
    gives the data back, the text written having no line feed in it. *)
Theorem X11_relay_rebuilds_the_deltas
    (JSON_parse : string -> option json) (ToString : json -> string)
    (stringify : json -> string)
    (chunks : list Transcoder.Chunk) (ts : list string)
    (groups : list (list Transcoder.Frame))
    (input : string) (st : Client.ChatState) :
  blank input = false ->
  map Transcoder.delta_text chunks = map Some ts ->
  Forall (Wire.faithful JSON_parse stringify) ts ->
  concat groups = Transcoder.enqueued (Transcoder.pipeThrough chunks) ->
  Client.handleSend JSON_parse ToString input
    (Client.Body (map (fun g => Client.RChunk (Wire.batch stringify g)) groups
                  ++ [Client.RDone])%list) st
  = {| Client.messages :=
         (Client.messages st
          ++ [{| role := user; content := input |};
              {| role := assistant; content := concat_all ts |}])%list;
       Client.isLoading := false |}.
Proof.
  intros Hin Hts Hf Hg.
  destruct (deltas_never_fail chunks ts Hts) as (H1 & H2 & H3).
  rewrite pipeThrough_spec, H1, H2, H3 in Hg. cbn [Transcoder.enqueued] in Hg.
  unfold Client.handleSend. rewrite Hin.
  rewrite <- (map_map (Wire.batch stringify) Client.RChunk).
  rewrite read_loop_chunks, on_chunks_last. simpl.
  rewrite (deltas_batches JSON_parse ToString stringify groups)
    by (rewrite Hg; now apply sendable_frames).
  rewrite Hg, carried_content, concat_all_nonempty, <- app_assoc. reflexivity.
Qed.

Lemma X11_witness :
  Client.handleSend Scenario.parse Scenario.to_string "What's best here?"
    (Client.Body
       [Client.RChunk
          (Wire.batch Scenario.stringify
             [Transcoder.ContentFrame (JStr "The "); Transcoder.ContentFrame (JStr "best ")]);
        Client.RChunk (Wire.batch Scenario.stringify []);
        Client.RChunk
          (Wire.batch Scenario.stringify
             [Transcoder.ContentFrame (JStr "move is e4."); Transcoder.TerminationFrame]);
        Client.RDone])
    {| Client.messages := [Scenario.coach]; Client.isLoading := false |}
  = {| Client.messages :=
         [Scenario.coach; Scenario.question;
          {| role := assistant; content := "The best move is e4." |}];
       Client.isLoading := false |}.
Proof.
  apply (X11_relay_rebuilds_the_deltas Scenario.parse Scenario.to_string Scenario.stringify
           [Scenario.text_delta "The "; Scenario.text_delta "best ";
            Scenario.text_delta "move is e4."]
           ["The "; "best "; "move is e4."]
           [[Transcoder.ContentFrame (JStr "The "); Transcoder.ContentFrame (JStr "best ")];
            [];
            [Transcoder.ContentFrame (JStr "move is e4."); Transcoder.TerminationFrame]]
           "What's best here?"
           {| Client.messages := [Scenario.coach]; Client.isLoading := false |}).
  - reflexivity.
  - reflexivity.
  - repeat constructor; discriminate.
  - reflexivity.
Defined.

(** * The engine's move reaches the provider *)

Section Composition.

Import Route.

Lemma prefix_app_l (needle a b : string) :
  String.prefix needle a = true -> String.prefix needle (a ++ b) = true.
Proof.
  revert a. induction needle as [|c needle IH]; intros a H.
  - now destruct (a ++ b).
  - destruct a as [|c' a]; [discriminate|].
    change (String.prefix (String c needle) (String c' (a ++ b)) = true).
    simpl in *. destruct (ascii_dec c c'); [now apply IH | discriminate].
Qed.

Lemma includes_app_l (needle a b : string) :
  includes needle a = true -> includes needle (a ++ b) = true.
Proof.
  induction a as [|c a IH]; intros H.
  - simpl in H. rewrite orb_false_r in H.
    apply (prefix_app_l needle "" b) in H. change ("" ++ b) with b in H |- *.
    destruct b; simpl in H |- *; now rewrite H.
  - change (includes needle (String c (a ++ b)) = true).
    simpl in H. apply orb_true_iff in H. destruct H as [H|H].
    + apply (prefix_app_l needle (String c a) b) in H.
      change (String c a ++ b) with (String c (a ++ b)) in H.
      simpl in H |- *. now rewrite H.
    + simpl. rewrite (IH H). apply orb_true_r.
Qed.

Lemma augmented_includes (needle position analysis question : string) :
  includes needle analysis = true ->
  includes needle (augmented position analysis question) = true.
Proof.
  intros H. unfold augmented.
  do 5 apply includes_app_r. now apply includes_app_l.
Qed.

(** The filter of the system turns keeps the last user turn the last. *)
Lemma findLast_filter {A : Type} (p q : A -> bool) (l : list A) :
  (forall x, p x = true -> q x = true) ->
  snd <$> findLast p (List.filter q l) = snd <$> findLast p l.
Proof.
  intros Hpq. induction l as [|a l IH]; [reflexivity|].
  simpl. destruct (q a) eqn:Hq.
  - simpl. destruct (findLast p (List.filter q l)) as [[i y]|],
             (findLast p l) as [[j z]|]; simpl in *; congruence.
  - destruct (p a) eqn:Hp; [rewrite (Hpq a Hp) in Hq; discriminate|].
    rewrite IH. now destruct (findLast p l) as [[j z]|].
Qed.

End Composition.

(** X16: once a request with a user turn has passed both validations and
    the engine has resolved, the one call to the provider has, as its last
    user message, the last user message of the request augmented with the
    position and the analysis, and that content contains the sentinel of
    the engine with the move it found. *)
Theorem X16_provider_gets_the_engine_analysis
    (w : Route.World) (body : Route.ChatRequest)
    (analysis : string) (i : nat) (m : Message) :
  Route.chess_load w (Route.position body) = true ->
  Route.resolve_key w (Route.model body) <> "" ->
  Engine.settle "" (Route.engine_events w) = Engine.Resolved analysis ->
  Route.findLast Route.is_user (Route.messages body) = Some (i, m) ->
  exists call : Route.ProviderCall,
    Route.provider_calls (snd (Route.POST w body)) = [call]
    /\ snd <$> Route.findLast Route.is_user (Route.call_messages call)
       = Some {| role := user;
                 content := Route.augmented (Route.position body) analysis (content m) |}
    /\ includes "bestmove"
         (Route.augmented (Route.position body) analysis (content m)) = true.
Proof.
  intros Hv Hk Ha Hf.
  rewrite POST_effects, stream_effects, awaited_settle, Ha by assumption.
  eexists. split; [reflexivity|]. cbn [Route.call_messages].
  destruct (findLast_Some _ _ _ _ Hf) as (_ & Hu & _). apply is_user_true in Hu.
  split.
  - rewrite anthropicMessages_filter, findLast_filter.
    + unfold Route.augment. rewrite Hf, Hu.
      now rewrite (findLast_insert _ _ _ _ _ Hf).
    + intros [r c] Hx. now destruct r.
  - apply augmented_includes. now apply settle_resolved in Ha.
Qed.

Lemma X16_witness :
  exists call : Route.ProviderCall,
    Route.provider_calls
      (snd (Route.POST Scenario.world
              (Scenario.request [Scenario.coach; Scenario.question] Scenario.start_fen)))
    = [call]
    /\ snd <$> Route.findLast Route.is_user (Route.call_messages call)
       = Some {| role := user;
                 content :=
                   Route.augmented Scenario.start_fen
                     ("info depth 20 score cp 30 pv e2e4" ++ nl ++
                      "bestmove e2e4 ponder e7e5" ++ nl)
                     "What's best here?" |}
    /\ includes "bestmove"
         (Route.augmented Scenario.start_fen
            ("info depth 20 score cp 30 pv e2e4" ++ nl ++
             "bestmove e2e4 ponder e7e5" ++ nl)
            "What's best here?") = true.
Proof.
  apply (X16_provider_gets_the_engine_analysis Scenario.world
           (Scenario.request [Scenario.coach; Scenario.question] Scenario.start_fen)
           ("info depth 20 score cp 30 pv e2e4" ++ nl ++ "bestmove e2e4 ponder e7e5" ++ nl)
           1 Scenario.question);
    [reflexivity | discriminate | reflexivity | reflexivity].
Defined.
